(** * sound-meters: the popup's capture controller and its pixel mappings

    A shallow embedding of [src/popup.js]: the start/stop controller with
    its event handlers, the render loop, and the three coordinate mappings
    used by the two panes (log-frequency x, decibel y, waveform x/y).

    Modelling choices, all visible in the definitions below.

    - A JavaScript Number is a value of [Num.t]: a real number, one of the
      two infinities, or NaN.  Arithmetic on finite values is exact (the
      rounding of binary64 is not modelled); the special values follow
      ECMAScript.  Zero carries no sign and a zero divisor is read as +0,
      which is what every zero divisor of this program is ([log10 1],
      [x - x], an array length).
    - The module-level [let] variables, the five DOM nodes and the frame
      scheduler of the host form one record, [World].  A handler is a
      function in the monad [M], which threads the world and collects the
      calls made to the collaborators ([Effect]) in program order.
    - [startCapture] is [async]: it is cut at its two [await]s into
      [startCapture], [afterCapture] and [afterResume]; what the host
      answers at each resumption is an argument of the piece. *)

From Stdlib Require Import Reals Lra List String Bool Arith ZArith NArith Lia Sorted.
From Stdlib Require PrimFloat.
Import ListNotations.

Set Implicit Arguments.

(* ------------------------------------------------------------------ *)
(** ** Numbers *)

Module Num.

Inductive t : Type :=
| Fin (r : R)
| PInf
| NInf
| NaN.

Definition of_nat (n : nat) : t := Fin (IZR (Z.of_nat n)).

Definition neg (x : t) : t :=
  match x with
  | Fin r => Fin (- r)
  | PInf => NInf
  | NInf => PInf
  | NaN => NaN
  end.

Definition add (x y : t) : t :=
  match x, y with
  | NaN, _ | _, NaN => NaN
  | Fin a, Fin b => Fin (a + b)
  | PInf, NInf | NInf, PInf => NaN
  | PInf, _ | _, PInf => PInf
  | NInf, _ | _, NInf => NInf
  end.

Definition sub (x y : t) : t := add x (neg y).

(** [r * i] for an infinite [i]: the sign of [r] decides, [0 * ∞] is NaN. *)
Definition scale_inf (r : R) (i : t) : t :=
  if Rlt_dec 0 r then i else if Rlt_dec r 0 then neg i else NaN.

Definition mul (x y : t) : t :=
  match x, y with
  | NaN, _ | _, NaN => NaN
  | Fin a, Fin b => Fin (a * b)
  | Fin a, i | i, Fin a => scale_inf a i
  | PInf, PInf | NInf, NInf => PInf
  | PInf, NInf | NInf, PInf => NInf
  end.

Definition div (x y : t) : t :=
  match x, y with
  | NaN, _ | _, NaN => NaN
  | Fin a, Fin b => if Req_dec_T b 0 then scale_inf a PInf else Fin (a / b)
  | Fin _, (PInf | NInf) => Fin 0
  | (PInf | NInf) as i, Fin b => if Rlt_dec b 0 then neg i else i
  | _, _ => NaN
  end.

(** [Math.log10]. *)
Definition log10 (x : t) : t :=
  match x with
  | Fin r =>
      if Rlt_dec r 0 then NaN
      else if Req_dec_T r 0 then NInf
      else Fin (ln r / ln 10)
  | PInf => PInf
  | NInf | NaN => NaN
  end.

(** [Math.min] and [Math.max] of two arguments: NaN if either is NaN. *)
Definition min (x y : t) : t :=
  match x, y with
  | NaN, _ | _, NaN => NaN
  | NInf, _ | _, NInf => NInf
  | PInf, z | z, PInf => z
  | Fin a, Fin b => if Rle_dec a b then Fin a else Fin b
  end.

Definition max (x y : t) : t :=
  match x, y with
  | NaN, _ | _, NaN => NaN
  | PInf, _ | _, PInf => PInf
  | NInf, z | z, NInf => z
  | Fin a, Fin b => if Rle_dec a b then Fin b else Fin a
  end.

(** [x <= y] as JavaScript compares: false as soon as a NaN is involved. *)
Definition le (x y : t) : Prop :=
  match x, y with
  | NaN, _ | _, NaN => False
  | NInf, _ | _, PInf => True
  | Fin a, Fin b => (a <= b)%R
  | _, _ => False
  end.

Definition is_nan (x : t) : bool :=
  match x with NaN => true | _ => false end.

(** Truthiness of a Number, as [||] and [if] test it. *)
Definition truthy (x : t) : bool :=
  match x with
  | NaN => false
  | Fin r => if Req_dec_T r 0 then false else true
  | _ => true
  end.

End Num.

(* ------------------------------------------------------------------ *)
(** ** The analyser and the three mappings *)

(** The properties of the AnalyserNode that the program sets and reads. *)
Record Analyser : Type := {
  fftSize : nat;
  minDecibels : Num.t;
  maxDecibels : Num.t;
  smoothingTimeConstant : Num.t
}.

(** [analyser.frequencyBinCount] is half the transform size. *)
Definition frequencyBinCount (a : Analyser) : nat := fftSize a / 2.

(** The values assigned at lines 108-111. *)
Definition configured : Analyser := {|
  fftSize := 2048;
  minDecibels := Num.Fin (-90);
  maxDecibels := Num.Fin (-10);
  smoothingTimeConstant := Num.Fin (6 / 10)
|}.

Definition BINS_PER_BUCKET : nat := 8.

(** [logWidth = Math.log10(freqData.length)], computed once per start. *)
Definition logWidth (freqLen : nat) : Num.t := Num.log10 (Num.of_nat freqLen).

(** [logX = (bin) => (Math.log10(bin + 1) / logWidth) * specWidth];
    [specWidth] is the module variable, read when [logX] is called. *)
Definition logX (freqLen : nat) (specWidth : Num.t) (bin : nat) : Num.t :=
  Num.mul
    (Num.div (Num.log10 (Num.add (Num.of_nat bin) (Num.Fin 1))) (logWidth freqLen))
    specWidth.

Definition dbRange (a : Analyser) : Num.t :=
  Num.sub (maxDecibels a) (minDecibels a).

(** The constant [n] of [mapY]: the reading normalised and clamped. *)
Definition normDb (a : Analyser) (db : Num.t) : Num.t :=
  Num.min (Num.Fin 1)
    (Num.max (Num.Fin 0) (Num.div (Num.sub db (minDecibels a)) (dbRange a))).

(** [mapY = (db) => specHeight - n * specHeight]. *)
Definition mapY (a : Analyser) (specHeight : Num.t) (db : Num.t) : Num.t :=
  let n := normDb a db in
  Num.sub specHeight (Num.mul n specHeight).

(** The waveform loop body: [y = mid - timeData[i] * mid]. *)
Definition waveY (mid : Num.t) (sample : Num.t) : Num.t :=
  Num.sub mid (Num.mul sample mid).

(* ------------------------------------------------------------------ *)
(** ** Collaborators: what the program sends out *)

Inductive Canvas : Type := SpecCanvas | WaveCanvas.

(** Calls on a 2D drawing context. *)
Inductive Cmd : Type :=
| ClearRect (x y w h : Num.t)
| BeginPath
| MoveTo (x y : Num.t)
| QuadraticCurveTo (cpx cpy x y : Num.t)
| LineTo (x y : Num.t)
| ClosePath
| FillGradient (x0 y0 x1 y1 : Num.t) (stops : list (Num.t * string))
| Fill
| StrokeStyle (s : string)
| LineWidth (n : Num.t)
| Stroke
| Scale (sx sy : Num.t).

(** A value that reaches a [catch] clause: [null]/[undefined], or an object
    whose [message] property may be missing. *)
Inductive Thrown : Type :=
| ThrownNullish
| ThrownObject (message : option string).

(** [e?.message ?? fallback]. *)
Definition messageOr (e : Thrown) (fallback : string) : string :=
  match e with
  | ThrownObject (Some m) => m
  | ThrownObject None | ThrownNullish => fallback
  end.

Definition StreamId := nat.
Definition ContextId := nat.
Definition Handle := N.

Inductive Effect : Type :=
| CaptureRequest                          (* chrome.tabCapture.capture *)
| NewAudioContext (c : ContextId)
| ContextResume (c : ContextId)
| BuildGraph (c : ContextId) (s : option StreamId) (a : Analyser)
| RequestFrame (h : Handle)               (* requestAnimationFrame(draw) *)
| CancelFrame (h : Handle)                (* cancelAnimationFrame *)
| StopTracks (s : StreamId)               (* getTracks().forEach(stop) *)
| ContextClose (c : ContextId)            (* audioContext.close() *)
| ConsoleError (e : Thrown)
| AssignSize (cv : Canvas) (w h : Num.t)  (* canvas.width = w; canvas.height = h *)
| Paint (cv : Canvas) (c : Cmd)
| FrameBegin (capturing : bool).
(** [AssignSize] carries the Numbers the script assigns; what the host makes
    of them (it converts each to an unsigned long and resets the bitmap) is
    not part of the script.  [FrameBegin] is not a call: it marks each entry
    into [draw] and records the value [isCapturing] has at that moment. *)

(* ------------------------------------------------------------------ *)
(** ** The world *)

Record Dom : Type := {
  errHidden : bool;          (* errBox.hidden *)
  errText : string;          (* errBox.textContent *)
  statusText : string;       (* statusEl.textContent *)
  toggleText : string;       (* toggleBtn.textContent *)
  toggleDisabled : bool      (* toggleBtn.disabled *)
}.

Record Dims : Type := {
  specWidth : Num.t;
  specHeight : Num.t;
  waveWidth : Num.t;
  waveHeight : Num.t
}.

Record Ctl : Type := {
  stream : option StreamId;
  audioContext : option ContextId;
  animationId : option Handle;
  isCapturing : bool
}.

(** The host's frame scheduler: the callbacks requested and neither run nor
    cancelled yet, and the next handle it will give out. *)
Record Sched : Type := {
  pendingFrames : list Handle;
  nextHandle : Handle
}.

Record World : Type := {
  dom : Dom;
  dims : Dims;
  ctl : Ctl;
  sched : Sched
}.

(** ** The handler monad: world in, world and calls out *)

Definition M (A : Type) : Type := World -> A * World * list Effect.

Definition ret {A} (a : A) : M A := fun w => (a, w, []).

Definition bind {A B} (m : M A) (k : A -> M B) : M B :=
  fun w =>
    let '(a, w1, l1) := m w in
    let '(b, w2, l2) := k a w1 in
    (b, w2, l1 ++ l2).

Notation "x <- m ;; k" := (bind m (fun x => k))
  (at level 61, m at next level, right associativity).
Notation "m ;; k" := (bind m (fun _ => k))
  (at level 61, right associativity).

Definition gets {A} (f : World -> A) : M A := fun w => (f w, w, []).
Definition modify (f : World -> World) : M unit := fun w => (tt, f w, []).
Definition emit (e : Effect) : M unit := fun w => (tt, w, [e]).
Definition emitAll (l : list Effect) : M unit := fun w => (tt, w, l).

Definition worldOf {A} (r : A * World * list Effect) : World := snd (fst r).
Definition callsOf {A} (r : A * World * list Effect) : list Effect := snd r.
Definition valueOf {A} (r : A * World * list Effect) : A := fst (fst r).

(** Field updates. *)
Definition onDom (f : Dom -> Dom) (w : World) : World :=
  {| dom := f (dom w); dims := dims w; ctl := ctl w; sched := sched w |}.
Definition onCtl (f : Ctl -> Ctl) (w : World) : World :=
  {| dom := dom w; dims := dims w; ctl := f (ctl w); sched := sched w |}.
Definition onSched (f : Sched -> Sched) (w : World) : World :=
  {| dom := dom w; dims := dims w; ctl := ctl w; sched := f (sched w) |}.
Definition withDims (d : Dims) (w : World) : World :=
  {| dom := dom w; dims := d; ctl := ctl w; sched := sched w |}.

Definition withErr (hidden : bool) (text : string) (d : Dom) : Dom :=
  {| errHidden := hidden; errText := text; statusText := statusText d;
     toggleText := toggleText d; toggleDisabled := toggleDisabled d |}.
Definition withStatus (text : string) (d : Dom) : Dom :=
  {| errHidden := errHidden d; errText := errText d; statusText := text;
     toggleText := toggleText d; toggleDisabled := toggleDisabled d |}.
Definition withToggleText (text : string) (d : Dom) : Dom :=
  {| errHidden := errHidden d; errText := errText d; statusText := statusText d;
     toggleText := text; toggleDisabled := toggleDisabled d |}.
Definition withDisabled (b : bool) (d : Dom) : Dom :=
  {| errHidden := errHidden d; errText := errText d; statusText := statusText d;
     toggleText := toggleText d; toggleDisabled := b |}.

Definition withStream (s : option StreamId) (c : Ctl) : Ctl :=
  {| stream := s; audioContext := audioContext c;
     animationId := animationId c; isCapturing := isCapturing c |}.
Definition withAudioContext (a : option ContextId) (c : Ctl) : Ctl :=
  {| stream := stream c; audioContext := a;
     animationId := animationId c; isCapturing := isCapturing c |}.
Definition withAnimationId (h : option Handle) (c : Ctl) : Ctl :=
  {| stream := stream c; audioContext := audioContext c;
     animationId := h; isCapturing := isCapturing c |}.
Definition withCapturing (b : bool) (c : Ctl) : Ctl :=
  {| stream := stream c; audioContext := audioContext c;
     animationId := animationId c; isCapturing := b |}.

(* ------------------------------------------------------------------ *)
(** ** Surfaces: [setupCanvas], [initCanvases], [clearCanvases] *)

(** What the host reports when the layout is read: the two bounding boxes
    (width, height) and [window.devicePixelRatio], possibly undefined. *)
Record Layout : Type := {
  specRect : Num.t * Num.t;
  waveRect : Num.t * Num.t;
  devicePixelRatio : option Num.t
}.

(** [window.devicePixelRatio || 1]. *)
Definition dprOr1 (l : Layout) : Num.t :=
  match devicePixelRatio l with
  | Some d => if Num.truthy d then d else Num.Fin 1
  | None => Num.Fin 1
  end.

(** Returns the [width] and [height] fields of the result object. *)
Definition setupCanvas (cv : Canvas) (rect : Num.t * Num.t) (dpr : Num.t)
  : M (Num.t * Num.t) :=
  emit (AssignSize cv (Num.mul (fst rect) dpr) (Num.mul (snd rect) dpr)) ;;
  emit (Paint cv (Scale dpr dpr)) ;;
  ret rect.

Definition initCanvases (l : Layout) : M unit :=
  spec <- setupCanvas SpecCanvas (specRect l) (dprOr1 l) ;;
  wave <- setupCanvas WaveCanvas (waveRect l) (dprOr1 l) ;;
  modify (withDims {| specWidth := fst spec; specHeight := snd spec;
                      waveWidth := fst wave; waveHeight := snd wave |}).

Definition clearCanvases : M unit :=
  d <- gets dims ;;
  emit (Paint SpecCanvas
          (ClearRect (Num.Fin 0) (Num.Fin 0) (specWidth d) (specHeight d))) ;;
  emit (Paint WaveCanvas
          (ClearRect (Num.Fin 0) (Num.Fin 0) (waveWidth d) (waveHeight d))).

(** ** Helpers *)

Definition setStatus (text : string) : M unit :=
  modify (onDom (withStatus text)).

Definition showError (msg : string) : M unit :=
  modify (onDom (withErr false msg)) ;;
  setStatus "Error"%string.

Definition clearError : M unit :=
  modify (onDom (withErr true EmptyString)).

(** The callback given to [chrome.tabCapture.capture]: [lastError] is
    [chrome.runtime.lastError] (absent, or an object with an optional
    message), [s] the stream handed over, if any.  [inl] rejects, [inr]
    resolves. *)
Definition captureAudio (lastError : option (option string))
  (s : option StreamId) : Thrown + StreamId :=
  match lastError, s with
  | Some m, _ => inl (ThrownObject m)
  | None, None =>
      inl (ThrownObject (Some "Permission denied or no audio available"%string))
  | None, Some st => inr st
  end.

(** ** The frame scheduler of the host *)

Definition requestAnimationFrame : M Handle :=
  h <- gets (fun w => nextHandle (sched w)) ;;
  modify (onSched (fun s =>
    {| pendingFrames := h :: pendingFrames s; nextHandle := N.succ h |})) ;;
  emit (RequestFrame h) ;;
  ret h.

Definition cancelAnimationFrame (h : Handle) : M unit :=
  modify (onSched (fun s =>
    {| pendingFrames := List.remove N.eq_dec h (pendingFrames s);
       nextHandle := nextHandle s |})) ;;
  emit (CancelFrame h).

(** [if (animationId)]: neither [null] nor [0]. *)
Definition truthyHandle (a : option Handle) : option Handle :=
  match a with
  | Some h => if N.eqb h 0 then None else Some h
  | None => None
  end.

(* ------------------------------------------------------------------ *)
(** ** [stopCapture] *)

Definition stopCapture : M unit :=
  a <- gets (fun w => animationId (ctl w)) ;;
  match truthyHandle a with
  | Some h =>
      cancelAnimationFrame h ;;
      modify (onCtl (withAnimationId None))
  | None => ret tt
  end ;;
  s <- gets (fun w => stream (ctl w)) ;;
  match s with
  | Some st =>
      emit (StopTracks st) ;;
      modify (onCtl (withStream None))
  | None => ret tt
  end ;;
  c <- gets (fun w => audioContext (ctl w)) ;;
  match c with
  | Some ac =>
      emit (ContextClose ac) ;;
      modify (onCtl (withAudioContext None))
  | None => ret tt
  end ;;
  clearCanvases ;;
  modify (onCtl (withCapturing false)) ;;
  setStatus "Stopped"%string ;;
  modify (onDom (withToggleText "Start"%string)) ;;
  modify (onDom (withDisabled false)).

(** The handler attached to [audioContext.close()]: [.catch(() => {})]. *)
Definition onCloseRejected (e : Thrown) : M unit := ret tt.

(* ------------------------------------------------------------------ *)
(** ** The render loop: [draw] *)

(** What the analyser writes into [freqData] and [timeData] on a frame,
    each as long as its buffer. *)
Record FrameData : Type := {
  freqSnapshot : list Num.t;
  timeSnapshot : list Num.t
}.

(** Reading past the end of a typed array gives [undefined], which turns
    a sum or a product into NaN. *)
Definition at_index (buf : list Num.t) (i : nat) : Num.t := nth i buf Num.NaN.

(** [sum = 0; for (j = 0; j < BINS_PER_BUCKET; j++) sum += freqData[start + j]] *)
Definition bucketSum (freq : list Num.t) (start : nat) : Num.t :=
  fold_left (fun sum j => Num.add sum (at_index freq (start + j)))
    (seq 0 BINS_PER_BUCKET) (Num.Fin 0).

Definition bucketAvg (freq : list Num.t) (start : nat) : Num.t :=
  Num.div (bucketSum freq start) (Num.of_nat BINS_PER_BUCKET).

(** The integers [b] with [1 <= b < freqLen / BINS_PER_BUCKET], the
    quotient being a Number. *)
Definition laterBuckets (freqLen : nat) : list nat :=
  seq 1 ((freqLen + (BINS_PER_BUCKET - 1)) / BINS_PER_BUCKET - 1).

(** The body of the bucket loop, from the previous point [(px, py)]. *)
Fixpoint specCurve (a : Analyser) (d : Dims) (freq : list Num.t)
  (bs : list nat) (px py : Num.t) : list Cmd :=
  match bs with
  | [] => []
  | b :: bs' =>
      let start := b * BINS_PER_BUCKET in
      let avg := bucketAvg freq start in
      let cx := logX (frequencyBinCount a) (specWidth d) start in
      let cy := mapY a (specHeight d) avg in
      let midX := Num.div (Num.add px cx) (Num.Fin 2) in
      let midY := Num.div (Num.add py cy) (Num.Fin 2) in
      QuadraticCurveTo px py midX midY :: specCurve a d freq bs' cx cy
  end.

Definition spectrumCmds (a : Analyser) (d : Dims) (freq : list Num.t)
  : list Cmd :=
  let py := mapY a (specHeight d) (bucketAvg freq 0) in
  [ ClearRect (Num.Fin 0) (Num.Fin 0) (specWidth d) (specHeight d);
    BeginPath;
    MoveTo (Num.Fin 0) py ]
  ++ specCurve a d freq (laterBuckets (frequencyBinCount a)) (Num.Fin 0) py
  ++ [ LineTo (specWidth d) (specHeight d);
       LineTo (Num.Fin 0) (specHeight d);
       ClosePath;
       FillGradient (Num.Fin 0) (Num.Fin 0) (Num.Fin 0) (specHeight d)
         [ (Num.Fin 0, "rgba(0,255,255,0.8)"%string);
           (Num.Fin 1, "rgba(0,0,128,0.1)"%string) ];
       Fill;
       StrokeStyle "rgba(255,255,255,0.6)"%string;
       LineWidth (Num.Fin 1);
       Stroke ].

(** [if (i === 0) moveTo(x, y) else lineTo(x, y)]. *)
Definition pen (i : nat) (x y : Num.t) : Cmd :=
  if Nat.eqb i 0 then MoveTo x y else LineTo x y.

(** The sample loop over the indices [idx], [x] being the running abscissa.
    The additions [x += sliceWidth] are exact here; in the engine each is
    rounded, so the abscissa of the script is this one up to rounding (see
    [Binary64.runningX]). *)
Fixpoint waveTrace (time : list Num.t) (mid sliceWidth : Num.t)
  (idx : list nat) (x : Num.t) : list Cmd :=
  match idx with
  | [] => []
  | i :: idx' =>
      let y := waveY mid (at_index time i) in
      pen i x y
        :: waveTrace time mid sliceWidth idx' (Num.add x sliceWidth)
  end.

Definition sliceWidthOf (timeLen : nat) (d : Dims) : Num.t :=
  Num.div (waveWidth d) (Num.of_nat timeLen).

Definition midOf (d : Dims) : Num.t := Num.div (waveHeight d) (Num.Fin 2).

Definition waveformCmds (a : Analyser) (d : Dims) (time : list Num.t)
  : list Cmd :=
  [ ClearRect (Num.Fin 0) (Num.Fin 0) (waveWidth d) (waveHeight d);
    BeginPath ]
  ++ waveTrace time (midOf d) (sliceWidthOf (fftSize a) d)
       (seq 0 (fftSize a)) (Num.Fin 0)
  ++ [ StrokeStyle "#00ff7f"%string; LineWidth (Num.Fin 1); Stroke ].

Definition draw (a : Analyser) (fd : FrameData) : M unit :=
  c <- gets (fun w => isCapturing (ctl w)) ;;
  emit (FrameBegin c) ;;
  d <- gets dims ;;
  emitAll (map (Paint SpecCanvas) (spectrumCmds a d (freqSnapshot fd))) ;;
  emitAll (map (Paint WaveCanvas) (waveformCmds a d (timeSnapshot fd))) ;;
  h <- requestAnimationFrame ;;
  modify (onCtl (withAnimationId (Some h))).

(* ------------------------------------------------------------------ *)
(** ** [startCapture], cut at its awaits *)

(** Where a suspended invocation of [startCapture] waits. *)
Inductive Await : Type :=
| AwaitCapture      (* await captureAudio() *)
| AwaitResume.      (* await audioContext.resume() *)

(** The [catch] clause. *)
Definition onCatch (e : Thrown) : M unit :=
  emit (ConsoleError e) ;;
  showError (messageOr e "Capture failed"%string) ;;
  modify (onDom (withDisabled false)) ;;
  stopCapture.

(** From the call to the first await. *)
Definition startCapture : M (option Await) :=
  c <- gets (fun w => isCapturing (ctl w)) ;;
  if c then ret None
  else
    clearError ;;
    setStatus "Starting..."%string ;;
    modify (onDom (withDisabled true)) ;;
    emit CaptureRequest ;;
    ret (Some AwaitCapture).

(** From the settlement of [captureAudio()] to the second await.
    [mk] is what [new AudioContext()] does: throw, or give a context. *)
Definition afterCapture (r : Thrown + StreamId) (mk : Thrown + ContextId)
  : M (option Await) :=
  match r with
  | inl e => onCatch e ;; ret None
  | inr st =>
      modify (onCtl (withStream (Some st))) ;;
      match mk with
      | inl e => onCatch e ;; ret None
      | inr ac =>
          emit (NewAudioContext ac) ;;
          modify (onCtl (withAudioContext (Some ac))) ;;
          emit (ContextResume ac) ;;
          ret (Some AwaitResume)
      end
  end.

(** Reading a property of [null], as V8 words it. *)
Definition nullRead : Thrown :=
  ThrownObject
    (Some "Cannot read properties of null (reading 'createMediaStreamSource')"%string).

(** From the settlement of [resume()] to the end.  [r] is the rejection of
    [resume()], if it rejects; [g] the fault thrown while the graph and the
    buffers are built (lines 106-119), if any; [fd] the first snapshots. *)
Definition afterResume (r : option Thrown) (g : option Thrown)
  (fd : FrameData) : M unit :=
  match r with
  | Some e => onCatch e
  | None =>
      c <- gets (fun w => audioContext (ctl w)) ;;
      match c with
      | None => onCatch nullRead
      | Some ac =>
          match g with
          | Some e => onCatch e
          | None =>
              s <- gets (fun w => stream (ctl w)) ;;
              emit (BuildGraph ac s configured) ;;
              draw configured fd ;;
              modify (onCtl (withCapturing true)) ;;
              setStatus "Capturing..."%string ;;
              modify (onDom (withToggleText "Stop"%string)) ;;
              modify (onDom (withDisabled false))
          end
      end
  end.

(** ** The listeners *)

Definition onClick : M (option Await) :=
  c <- gets (fun w => isCapturing (ctl w)) ;;
  if c then stopCapture ;; ret None else startCapture.

Definition onUnload : M unit := stopCapture.

Definition onResize (l : Layout) : M unit :=
  initCanvases l ;;
  c <- gets (fun w => isCapturing (ctl w)) ;;
  if negb c then clearCanvases else ret tt.

(* ------------------------------------------------------------------ *)
(** ** The page as a transition system *)

(** The page: the world, the suspended invocations of [startCapture],
    whether the popup is still open, and every call made so far. *)
Record Sys : Type := {
  world : World;
  inflight : list Await;
  alive : bool;
  calls : list Effect
}.

(** What the host can deliver.  [k] designates a suspended invocation. *)
Inductive Event : Type :=
| Click
| Unload
| Resize (l : Layout)
| CaptureSettled (k : nat) (lastError : option (option string))
    (s : option StreamId) (mk : Thrown + ContextId)
| ResumeSettled (k : nat) (r g : option Thrown) (fd : FrameData)
| Frame (h : Handle) (fd : FrameData)
| CloseRejected (e : Thrown).

Fixpoint dropNth {A} (k : nat) (l : list A) : list A :=
  match k, l with
  | _, [] => []
  | O, _ :: l' => l'
  | S k', x :: l' => x :: dropNth k' l'
  end.

Definition spawn (o : option Await) (l : list Await) : list Await :=
  match o with
  | Some a => l ++ [a]
  | None => l
  end.

Definition memHandle (h : Handle) (l : list Handle) : bool :=
  existsb (N.eqb h) l.

(** The scheduler takes a callback off its list before it runs it. *)
Definition takeFrame (h : Handle) : M unit :=
  modify (onSched (fun s =>
    {| pendingFrames := List.remove N.eq_dec h (pendingFrames s);
       nextHandle := nextHandle s |})).

Definition after {A} (sy : Sys) (r : A * World * list Effect)
  (fl : list Await) (open : bool) : Sys :=
  {| world := worldOf r; inflight := fl; alive := open;
     calls := calls sy ++ callsOf r |}.

(** One event.  [None] when the host cannot deliver it: the popup is
    closed, the button is disabled (a disabled button receives no click),
    no invocation waits at [k] for this answer, or no frame [h] is due. *)
Definition step (sy : Sys) (ev : Event) : option Sys :=
  if negb (alive sy) then None
  else
    match ev with
    | Click =>
        if toggleDisabled (dom (world sy)) then None
        else
          let r := onClick (world sy) in
          Some (after sy r (spawn (valueOf r) (inflight sy)) true)
    | Unload =>
        Some (after sy (onUnload (world sy)) (inflight sy) false)
    | Resize l =>
        Some (after sy (onResize l (world sy)) (inflight sy) true)
    | CaptureSettled k lastError s mk =>
        match nth_error (inflight sy) k with
        | Some AwaitCapture =>
            let r := afterCapture (captureAudio lastError s) mk (world sy) in
            Some (after sy r (spawn (valueOf r) (dropNth k (inflight sy))) true)
        | _ => None
        end
    | ResumeSettled k r g fd =>
        match nth_error (inflight sy) k with
        | Some AwaitResume =>
            Some (after sy (afterResume r g fd (world sy))
                    (dropNth k (inflight sy)) true)
        | _ => None
        end
    | Frame h fd =>
        if memHandle h (pendingFrames (sched (world sy))) then
          Some (after sy ((takeFrame h ;; draw configured fd) (world sy))
                  (inflight sy) true)
        else None
    | CloseRejected e =>
        Some (after sy (onCloseRejected e (world sy)) (inflight sy) true)
    end.

Fixpoint run (sy : Sys) (evs : list Event) : option Sys :=
  match evs with
  | [] => Some sy
  | ev :: evs' =>
      match step sy ev with
      | Some sy' => run sy' evs'
      | None => None
      end
  end.

(** The page once the script has run: the variables as declared, then
    [initCanvases(); setStatus('Idle')].  [d0] is the document as loaded
    (the markup is not part of the script), [l] the first layout. *)
Definition blank (d0 : Dom) : World := {|
  dom := d0;
  dims := {| specWidth := Num.Fin 0; specHeight := Num.Fin 0;
             waveWidth := Num.Fin 0; waveHeight := Num.Fin 0 |};
  ctl := {| stream := None; audioContext := None;
            animationId := None; isCapturing := false |};
  sched := {| pendingFrames := []; nextHandle := 1%N |}
|}.

Definition boot (d0 : Dom) (l : Layout) : Sys :=
  let r := (initCanvases l ;; setStatus "Idle"%string) (blank d0) in
  {| world := worldOf r; inflight := []; alive := true; calls := callsOf r |}.

Definition Reachable (d0 : Dom) (l : Layout) (sy : Sys) : Prop :=
  exists evs, run (boot d0 l) evs = Some sy.

(* ------------------------------------------------------------------ *)
(** ** Notions used by the statements *)

(** A world in which [stopCapture] cancels whatever frame is due: handles
    are never 0, and at most one frame is due, the one [animationId] names,
    and then the capture is on. *)
Definition Tidy (w : World) : Prop :=
  nextHandle (sched w) <> 0%N
  /\ animationId (ctl w) <> Some 0%N
  /\ (pendingFrames (sched w) = []
      \/ exists h, pendingFrames (sched w) = [h]
                   /\ animationId (ctl w) = Some h
                   /\ isCapturing (ctl w) = true).

(** What holds of every page the host can produce: its world is tidy, and
    while the popup is open at most one invocation of [startCapture] is
    suspended, and then the button is disabled, the capture is off and no
    frame is due. *)
Definition Inv (sy : Sys) : Prop :=
  let w := world sy in
  Tidy w
  /\ (alive sy = true ->
      inflight sy = []
      \/ ((exists c, inflight sy = [c])
          /\ toggleDisabled (dom w) = true
          /\ isCapturing (ctl w) = false
          /\ pendingFrames (sched w) = [])).

(** The world once the [catch] clause has run [showError] and enabled the
    button, before it calls [stopCapture]. *)
Definition errorShown (e : Thrown) (w : World) : World :=
  worldOf ((showError (messageOr e "Capture failed") ;;
            modify (onDom (withDisabled false))) w).

(** The ways an invocation of [startCapture] suspended in [w] can fail,
    with the value caught and the world it leaves. *)
Inductive FailedStart (w : World) : Thrown -> World -> Prop :=
| FailCapture (lastError : option (option string)) (s : option StreamId)
    (mk : Thrown + ContextId) (e : Thrown) :
    captureAudio lastError s = inl e ->
    FailedStart w e (worldOf (afterCapture (captureAudio lastError s) mk w))
| FailNewContext (st : StreamId) (e : Thrown) :
    FailedStart w e (worldOf (afterCapture (inr st) (inl e) w))
| FailResume (e : Thrown) (g : option Thrown) (fd : FrameData) :
    FailedStart w e (worldOf (afterResume (Some e) g fd w))
| FailGraph (ac : ContextId) (e : Thrown) (fd : FrameData) :
    audioContext (ctl w) = Some ac ->
    FailedStart w e (worldOf (afterResume None (Some e) fd w))
| FailNoContext (g : option Thrown) (fd : FrameData) :
    audioContext (ctl w) = None ->
    FailedStart w nullRead (worldOf (afterResume None g fd w)).

(** The steps of a teardown, in the order the text of [stopCapture] has
    them. *)
Definition teardownRank (e : Effect) : option nat :=
  match e with
  | CancelFrame _ => Some 0
  | StopTracks _ => Some 1
  | ContextClose _ => Some 2
  | Paint _ (ClearRect _ _ _ _) => Some 3
  | _ => None
  end.

Definition inTeardownOrder (e1 e2 : Effect) : Prop :=
  match teardownRank e1, teardownRank e2 with
  | Some r1, Some r2 => r1 <= r2
  | _, _ => False
  end.

Definition clearsOf (d : Dims) : list Effect :=
  [ Paint SpecCanvas
      (ClearRect (Num.Fin 0) (Num.Fin 0) (specWidth d) (specHeight d));
    Paint WaveCanvas
      (ClearRect (Num.Fin 0) (Num.Fin 0) (waveWidth d) (waveHeight d)) ].

Definition optCall {A} (f : A -> Effect) (o : option A) : list Effect :=
  match o with
  | Some x => [f x]
  | None => []
  end.

(** ** A sample session *)

Module Sample.

Definition page : Dom := {|
  errHidden := true; errText := EmptyString; statusText := EmptyString;
  toggleText := "Start"%string; toggleDisabled := false
|}.

Definition layout : Layout := {|
  specRect := (Num.Fin 300, Num.Fin 150);
  waveRect := (Num.Fin 300, Num.Fin 150);
  devicePixelRatio := Some (Num.Fin 2)
|}.

Definition wider : Layout := {|
  specRect := (Num.Fin 400, Num.Fin 150);
  waveRect := (Num.Fin 400, Num.Fin 150);
  devicePixelRatio := Some (Num.Fin 2)
|}.

(** No sound: every magnitude is minus infinity, every sample is 0. *)
Definition silence : FrameData :=
  {| freqSnapshot := repeat Num.NInf 1024;
     timeSnapshot := repeat (Num.Fin 0) 2048 |}.

Definition orBoot (o : option Sys) : Sys :=
  match o with
  | Some sy => sy
  | None => boot page layout
  end.

(** One click: the capture request is out, nothing has answered. *)
Definition toStarting : list Event := [Click].
Definition starting : Sys := orBoot (run (boot page layout) toStarting).

(** The request is granted, the context resumes, the graph is built. *)
Definition toCapturing : list Event :=
  [Click; CaptureSettled 0 None (Some 7) (inr 3);
   ResumeSettled 0 None None silence].
Definition capturing : Sys := orBoot (run (boot page layout) toCapturing).

(** The request is refused with a message. *)
Definition refusal : Thrown := ThrownObject (Some "Permission denied"%string).
Definition toRefused : list Event :=
  [Click; CaptureSettled 0 (Some (Some "Permission denied"%string)) None (inr 3)].
Definition refused : Sys := orBoot (run (boot page layout) toRefused).

End Sample.

(* ------------------------------------------------------------------ *)
(** ** The phases of a page *)

(** Where the controller stands.  The script keeps no such value: it is
    read off [isCapturing], the suspended invocation and the popup. *)
Inductive Lifecycle : Type :=
| Idle
| Requesting      (* suspended at [await captureAudio()] *)
| Resuming        (* suspended at [await audioContext.resume()] *)
| Capturing
| Closed.         (* after [unload] *)

(** Nothing is held: no stream, no context, no frame handle, no frame due. *)
Definition Released (w : World) : Prop :=
  ctl w = {| stream := None; audioContext := None;
             animationId := None; isCapturing := false |}
  /\ pendingFrames (sched w) = [].

(** The document as [startCapture] leaves it before its first await. *)
Definition StartingDom (d : Dom) : Prop :=
  statusText d = "Starting..."%string
  /\ toggleDisabled d = true
  /\ errHidden d = true
  /\ errText d = EmptyString.

(** What the page looks like in each phase. *)
Inductive Shape (sy : Sys) : Lifecycle -> Prop :=
| AtRest :
    alive sy = true -> inflight sy = [] -> Released (world sy) ->
    (statusText (dom (world sy)) = "Idle"%string
     \/ (statusText (dom (world sy)) = "Stopped"%string
         /\ toggleText (dom (world sy)) = "Start"%string
         /\ toggleDisabled (dom (world sy)) = false)) ->
    Shape sy Idle
| AtRequest :
    alive sy = true -> inflight sy = [AwaitCapture] ->
    Released (world sy) -> StartingDom (dom (world sy)) ->
    Shape sy Requesting
| AtResume (st : StreamId) (ac : ContextId) :
    alive sy = true -> inflight sy = [AwaitResume] ->
    ctl (world sy) = {| stream := Some st; audioContext := Some ac;
                        animationId := None; isCapturing := false |} ->
    pendingFrames (sched (world sy)) = [] ->
    StartingDom (dom (world sy)) ->
    Shape sy Resuming
| AtCapture (st : StreamId) (ac : ContextId) (h : Handle) :
    alive sy = true -> inflight sy = [] ->
    ctl (world sy) = {| stream := Some st; audioContext := Some ac;
                        animationId := Some h; isCapturing := true |} ->
    pendingFrames (sched (world sy)) = [h] ->
    h <> 0%N ->
    statusText (dom (world sy)) = "Capturing..."%string ->
    toggleText (dom (world sy)) = "Stop"%string ->
    toggleDisabled (dom (world sy)) = false ->
    errHidden (dom (world sy)) = true ->
    Shape sy Capturing
| AtClose :
    alive sy = false -> Released (world sy) ->
    statusText (dom (world sy)) = "Stopped"%string ->
    Shape sy Closed.

(** The calls that draw: those on a 2D context. *)
Definition isPaint (e : Effect) : Prop :=
  match e with
  | Paint _ _ => True
  | _ => False
  end.

(** A point of the logical surface [W] by [H], borders included. *)
Definition Inside (W H : R) (x y : Num.t) : Prop :=
  Num.le (Num.Fin 0) x /\ Num.le x (Num.Fin W)
  /\ Num.le (Num.Fin 0) y /\ Num.le y (Num.Fin H).

(** A magnitude the analyser can report: a real number of decibels, or
    minus infinity for no energy at all. *)
Definition Magnitude (x : Num.t) : Prop :=
  match x with
  | Num.Fin _ | Num.NInf => True
  | _ => False
  end.

(** The points a path command names: where it moves or draws to and, for
    a curve, its control point first. *)
Definition pathPoints (c : Cmd) : list (Num.t * Num.t) :=
  match c with
  | MoveTo x y | LineTo x y => [(x, y)]
  | QuadraticCurveTo cpx cpy x y => [(cpx, cpy); (x, y)]
  | _ => []
  end.

(** [((px + cx) / 2, (py + cy) / 2)], as the bucket loop computes it. *)
Definition midpoint (p q : Num.t * Num.t) : Num.t * Num.t :=
  (Num.div (Num.add (fst p) (fst q)) (Num.Fin 2),
   Num.div (Num.add (snd p) (snd q)) (Num.Fin 2)).

(** The point of bucket [b]: the abscissa of its first bin, the height of
    its mean. *)
Definition bucketPoint (a : Analyser) (d : Dims) (freq : list Num.t)
  (b : nat) : Num.t * Num.t :=
  (logX (frequencyBinCount a) (specWidth d) (b * BINS_PER_BUCKET),
   mapY a (specHeight d) (bucketAvg freq (b * BINS_PER_BUCKET))).

(** The calls that begin a session or a part of one: the capture request,
    the construction of the audio context, the construction of the graph. *)
Definition startsSession (e : Effect) : bool :=
  match e with
  | CaptureRequest | NewAudioContext _ | BuildGraph _ _ _ => true
  | _ => false
  end.

(* ------------------------------------------------------------------ *)
(** ** The waveform loop in binary64 *)

(** The arithmetic of lines 184-195 as the engine performs it: binary64,
    each operation rounded to nearest.  These are the same expressions as
    [sliceWidthOf], [midOf], [waveY] and the running [x] of [waveTrace];
    they compute, and serve to check which equalities of the exact model
    do not survive the rounding. *)
Module Binary64.
Import PrimFloat.

(** [sliceWidth = waveWidth / timeData.length]. *)
Definition sliceWidth (waveWidth len : float) : float :=
  (waveWidth / len)%float.

(** [mid = waveHeight / 2]. *)
Definition mid (waveHeight : float) : float := (waveHeight / 2)%float.

(** [x] on turn [i]: [let x = 0], then [x += sliceWidth] once per turn. *)
Definition runningX (slice : float) (i : nat) : float :=
  Nat.iter i (fun x => (x + slice)%float) 0%float.

(** [y = mid - timeData[i] * mid]. *)
Definition sampleY (m sample : float) : float := (m - sample * m)%float.

(** A width of 0.1 (the nearest binary64), the configured buffer length,
    its last index, a height of 150 and the amplitude 2^-60. *)
Definition tenth : float := 0x1.999999999999ap-4%float.
Definition len2048 : float := 2048%float.
Definition last2047 : float := 2047%float.
Definition h150 : float := 150%float.
Definition tiny : float := 0x1p-60%float.

End Binary64.

(* ------------------------------------------------------------------ *)
(** ** What the host does with a size assignment *)

(** Not the script's doing but the host's, by the HTML Standard: setting
    the [width] or [height] attribute of a canvas replaces its bitmap by a
    blank one (and resets its context).  [resetsBitmap e] is the surface
    the call [e] blanks in this way, if any. *)
Definition resetsBitmap (e : Effect) : option Canvas :=
  match e with
  | AssignSize cv _ _ => Some cv
  | _ => None
  end.

(* ================================================================== *)
(** * Properties *)

(** ** Arithmetic of the mappings *)

Section Mappings.
Local Open Scope R_scope.

Lemma ln10_pos : 0 < ln 10.
Proof. rewrite <- ln_1. apply ln_increasing; lra. Qed.

Lemma log10_pos (r : R) :
  0 < r -> Num.log10 (Num.Fin r) = Num.Fin (ln r / ln 10).
Proof.
  intro Hr. unfold Num.log10.
  destruct (Rlt_dec r 0) as [Hlt | _]; [lra |].
  destruct (Req_dec_T r 0) as [Heq | _]; [lra | reflexivity].
Qed.

Lemma of_nat_nonneg (n : nat) : 0 <= IZR (Z.of_nat n).
Proof. apply IZR_le. lia. Qed.

Lemma div_fin (a b : R) :
  b <> 0 -> Num.div (Num.Fin a) (Num.Fin b) = Num.Fin (a / b).
Proof.
  intro Hb. unfold Num.div.
  destruct (Req_dec_T b 0); [contradiction | reflexivity].
Qed.

Lemma logWidth_pos (N : nat) :
  (2 <= N)%nat -> 0 < ln (IZR (Z.of_nat N)) / ln 10.
Proof.
  intro HN. apply Rdiv_lt_0_compat; [| apply ln10_pos].
  rewrite <- ln_1. apply ln_increasing; [lra |].
  apply IZR_lt. lia.
Qed.

(** With at least two bins every value of [logX] is finite. *)
Lemma logX_fin (N : nat) (W : R) (bin : nat) :
  (2 <= N)%nat ->
  logX N (Num.Fin W) bin
  = Num.Fin (ln (IZR (Z.of_nat bin) + 1) / ln 10
             / (ln (IZR (Z.of_nat N)) / ln 10) * W).
Proof.
  intro HN. unfold logX, logWidth, Num.of_nat. cbn [Num.add].
  pose proof (of_nat_nonneg bin) as Hb.
  assert (0 < IZR (Z.of_nat N)) by (apply IZR_lt; lia).
  rewrite !log10_pos by lra.
  rewrite div_fin; [reflexivity |].
  pose proof (logWidth_pos HN). lra.
Qed.

Lemma ln_le_mono (x y : R) : 0 < x -> x <= y -> ln x <= ln y.
Proof.
  intros Hx [Hlt | Heq].
  - left. now apply ln_increasing.
  - subst. right. reflexivity.
Qed.

Lemma logX_first (N : nat) (W : R) :
  (2 <= N)%nat -> logX N (Num.Fin W) 0 = Num.Fin 0.
Proof.
  intro HN. rewrite logX_fin by assumption. f_equal.
  change (IZR (Z.of_nat 0)) with 0.
  replace (0 + 1) with 1 by lra. rewrite ln_1.
  unfold Rdiv. rewrite !Rmult_0_l. reflexivity.
Qed.

Lemma logX_last (N : nat) (W : R) :
  (2 <= N)%nat -> logX N (Num.Fin W) (N - 1) = Num.Fin W.
Proof.
  intro HN. rewrite logX_fin by assumption. f_equal.
  replace (IZR (Z.of_nat (N - 1)) + 1) with (IZR (Z.of_nat N)).
  - pose proof (logWidth_pos HN) as Hp.
    set (q := ln (IZR (Z.of_nat N)) / ln 10) in *.
    field. lra.
  - rewrite <- plus_IZR. f_equal. lia.
Qed.

Lemma logX_mono (N : nat) (W : R) (i j : nat) :
  (2 <= N)%nat -> 0 < W -> (i <= j)%nat ->
  Num.le (logX N (Num.Fin W) i) (logX N (Num.Fin W) j).
Proof.
  intros HN HW Hij. rewrite !logX_fin by assumption. cbn [Num.le].
  pose proof (logWidth_pos HN) as Hp. pose proof ln10_pos as H10.
  pose proof (of_nat_nonneg i) as Hi.
  assert (Hle : IZR (Z.of_nat i) + 1 <= IZR (Z.of_nat j) + 1).
  { apply Rplus_le_compat_r, IZR_le. lia. }
  apply ln_le_mono in Hle; [| lra].
  set (q := ln (IZR (Z.of_nat N)) / ln 10) in *.
  apply Rmult_le_compat_r; [lra |].
  apply Rmult_le_compat_r; [left; now apply Rinv_0_lt_compat |].
  apply Rmult_le_compat_r; [left; now apply Rinv_0_lt_compat | exact Hle].
Qed.

End Mappings.

Section LogFrequency.
Local Open Scope R_scope.

(** C6, as amended: for every width [W > 0] and every bin count
    [N >= 2], [logX] is non-decreasing in the bin index, sends bin 0 to
    a value [>= 0] and bin [N-1] to a value [<= W]; with 300 pixels and
    the 1024 bins of the configured analyser, bin 0 lands on 0 and bin
    1023 on 300. *)
Theorem logX_monotone_within_width (N : nat) (W : R) :
  0 < W -> (2 <= N)%nat ->
  (forall i j : nat, (i <= j)%nat ->
     Num.le (logX N (Num.Fin W) i) (logX N (Num.Fin W) j))
  /\ Num.le (Num.Fin 0) (logX N (Num.Fin W) 0)
  /\ Num.le (logX N (Num.Fin W) (N - 1)) (Num.Fin W)
  /\ logX (frequencyBinCount configured) (Num.Fin 300) 0 = Num.Fin 0
  /\ logX (frequencyBinCount configured) (Num.Fin 300) 1023 = Num.Fin 300.
Proof.
  intros HW HN. repeat split.
  - intros i j Hij. now apply logX_mono.
  - rewrite logX_first by assumption. cbn. lra.
  - rewrite logX_last by assumption. cbn. lra.
  - apply logX_first. cbv. lia.
  - change 1023%nat with (frequencyBinCount configured - 1)%nat.
    apply logX_last. cbv. lia.
Qed.

Lemma logX_monotone_within_width_witness :
  Num.le (logX 16 (Num.Fin 300) 3) (logX 16 (Num.Fin 300) 5)
  /\ Num.le (logX 16 (Num.Fin 300) 15) (Num.Fin 300).
Proof.
  assert (HW : 0 < 300) by lra.
  assert (HN : (2 <= 16)%nat) by lia.
  destruct (logX_monotone_within_width HW HN) as (Hm & _ & Hl & _).
  split; [apply Hm; lia | exact Hl].
Defined.

(** C6 as stated fails with a single bin: [logWidth] is then
    [log10 1 = 0], and bin 0, which is also bin [N-1], is sent to
    [0 / 0 * W], which is NaN and compares with nothing. *)
Lemma logX_single_bin_is_nan :
  logX 1 (Num.Fin 300) 0 = Num.NaN
  /\ ~ Num.le (Num.Fin 0) (logX 1 (Num.Fin 300) 0)
  /\ ~ Num.le (logX 1 (Num.Fin 300) (1 - 1)) (Num.Fin 300).
Proof.
  assert (E : logX 1 (Num.Fin 300) 0 = Num.NaN).
  { unfold logX, logWidth, Num.of_nat.
    change (Z.of_nat 0) with 0%Z. change (Z.of_nat 1) with 1%Z.
    cbn [Num.add]. replace (0 + 1) with 1 by lra.
    rewrite !log10_pos by lra. rewrite ln_1.
    unfold Num.div, Num.scale_inf.
    destruct (Req_dec_T (0 / ln 10) 0) as [_ | Hne];
      [| exfalso; apply Hne; unfold Rdiv; apply Rmult_0_l].
    destruct (Rlt_dec 0 (0 / ln 10)) as [Hlt | _];
      [unfold Rdiv in Hlt; rewrite Rmult_0_l in Hlt; lra |].
    destruct (Rlt_dec (0 / ln 10) 0) as [Hlt | _];
      [unfold Rdiv in Hlt; rewrite Rmult_0_l in Hlt; lra |].
    reflexivity. }
  change (1 - 1)%nat with 0%nat. rewrite E. cbn. tauto.
Qed.

End LogFrequency.

Section DecibelHeight.
Local Open Scope R_scope.

Variable a : Analyser.
Variables lo hi : R.
Hypothesis Hlo : minDecibels a = Num.Fin lo.
Hypothesis Hhi : maxDecibels a = Num.Fin hi.
Hypothesis Hrange : lo < hi.

Lemma normDb_fin (d : R) :
  normDb a (Num.Fin d) = Num.Fin (Rmin 1 (Rmax 0 ((d - lo) / (hi - lo)))).
Proof.
  unfold normDb, dbRange. rewrite Hlo, Hhi.
  cbn [Num.sub Num.add Num.neg].
  rewrite div_fin by lra.
  unfold Num.max, Num.min, Rmin, Rmax, Rminus.
  destruct (Rle_dec 0 ((d + - lo) / (hi + - lo)));
    match goal with |- context [Rle_dec 1 ?q] => destruct (Rle_dec 1 q) end;
    reflexivity.
Qed.

Lemma normDb_pinf : normDb a Num.PInf = Num.Fin 1.
Proof.
  unfold normDb, dbRange. rewrite Hlo, Hhi.
  cbn [Num.sub Num.add Num.neg Num.div].
  destruct (Rlt_dec (hi + - lo) 0); [lra | reflexivity].
Qed.

Lemma normDb_ninf : normDb a Num.NInf = Num.Fin 0.
Proof.
  unfold normDb, dbRange. rewrite Hlo, Hhi.
  cbn [Num.sub Num.add Num.neg Num.div].
  destruct (Rlt_dec (hi + - lo) 0); [lra |].
  cbn [Num.max Num.min].
  destruct (Rle_dec 1 0); [lra | reflexivity].
Qed.

Lemma clamp_bounds (q : R) : 0 <= Rmin 1 (Rmax 0 q) <= 1.
Proof.
  unfold Rmin, Rmax.
  destruct (Rle_dec 0 q);
    match goal with |- context [Rle_dec 1 ?x] => destruct (Rle_dec 1 x) end;
    lra.
Qed.

Lemma clamp_mono (p q : R) :
  p <= q -> Rmin 1 (Rmax 0 p) <= Rmin 1 (Rmax 0 q).
Proof.
  intro Hpq. apply Rle_min_compat_l. apply Rle_max_compat_l. exact Hpq.
Qed.

(** Every reading other than NaN has a normalised value in [0, 1]. *)
Lemma normDb_unit (d : Num.t) :
  Num.is_nan d = false ->
  exists n, normDb a d = Num.Fin n /\ 0 <= n <= 1.
Proof.
  destruct d as [r | | |]; intro Hd; try discriminate.
  - eexists. split; [apply normDb_fin | apply clamp_bounds].
  - exists 1. split; [apply normDb_pinf | lra].
  - exists 0. split; [apply normDb_ninf | lra].
Qed.

Lemma normDb_mono (d1 d2 : Num.t) (n1 n2 : R) :
  Num.le d1 d2 ->
  normDb a d1 = Num.Fin n1 -> normDb a d2 = Num.Fin n2 -> n1 <= n2.
Proof.
  destruct d1 as [r1 | | |], d2 as [r2 | | |]; cbn [Num.le];
    intros Hle H1 H2; try contradiction;
    rewrite ?normDb_fin, ?normDb_pinf, ?normDb_ninf in H1;
    rewrite ?normDb_fin, ?normDb_pinf, ?normDb_ninf in H2;
    injection H1 as <-; injection H2 as <-;
    try apply clamp_bounds; try lra.
  apply clamp_mono.
  apply Rmult_le_compat_r; [| lra].
  left. apply Rinv_0_lt_compat. lra.
Qed.

Lemma mapY_of_norm (h : R) (d : Num.t) (n : R) :
  normDb a d = Num.Fin n -> mapY a (Num.Fin h) d = Num.Fin (h - n * h).
Proof. intro Hn. unfold mapY. rewrite Hn. reflexivity. Qed.

End DecibelHeight.

Section DecibelHeightClaim.
Local Open Scope R_scope.

Lemma normDb_configured_mid : normDb configured (Num.Fin (-50)) = Num.Fin (1 / 2).
Proof.
  rewrite (@normDb_fin configured (-90) (-10)) by (reflexivity || lra).
  f_equal.
  replace ((-50 - -90) / (-10 - -90)) with (1 / 2) by lra.
  unfold Rmin, Rmax.
  destruct (Rle_dec 0 (1 / 2)); [| lra].
  destruct (Rle_dec 1 (1 / 2)); lra.
Qed.

(** C7: with a decibel window [lo < hi] and a height [h >= 0], [mapY]
    normalises every reading (finite or infinite) into [0, 1] over the
    window, clamping outside it, and returns [h - n * h]: the result lies
    in [0, h] and does not increase when the reading increases.  With the
    configured window [-90, -10], a reading of -50 normalises to 1/2 and
    is drawn at [h / 2]. *)
Theorem mapY_clamped_antitone (a : Analyser) (lo hi h : R) :
  minDecibels a = Num.Fin lo -> maxDecibels a = Num.Fin hi ->
  lo < hi -> 0 <= h ->
  (forall d : R,
     normDb a (Num.Fin d) = Num.Fin (Rmin 1 (Rmax 0 ((d - lo) / (hi - lo)))))
  /\ (forall d : Num.t, Num.is_nan d = false ->
        exists n, normDb a d = Num.Fin n /\ 0 <= n <= 1
                  /\ mapY a (Num.Fin h) d = Num.Fin (h - n * h))
  /\ (forall d : Num.t, Num.is_nan d = false ->
        Num.le (Num.Fin 0) (mapY a (Num.Fin h) d)
        /\ Num.le (mapY a (Num.Fin h) d) (Num.Fin h))
  /\ (forall d1 d2 : Num.t, Num.le d1 d2 ->
        Num.le (mapY a (Num.Fin h) d2) (mapY a (Num.Fin h) d1))
  /\ normDb configured (Num.Fin (-50)) = Num.Fin (1 / 2)
  /\ mapY configured (Num.Fin h) (Num.Fin (-50)) = Num.Fin (h / 2).
Proof.
  intros Hlo Hhi Hrange Hh.
  assert (Hnorm : forall d : Num.t, Num.is_nan d = false ->
            exists n, normDb a d = Num.Fin n /\ 0 <= n <= 1
                      /\ mapY a (Num.Fin h) d = Num.Fin (h - n * h)).
  { intros d Hd.
    destruct (@normDb_unit a lo hi Hlo Hhi Hrange d Hd) as (n & Hn & Hb).
    exists n. repeat split; try tauto. now apply mapY_of_norm. }
  split; [| split; [| split; [| split; [| split]]]].
  - intro d. now apply normDb_fin.
  - exact Hnorm.
  - intros d Hd. destruct (Hnorm d Hd) as (n & _ & Hb & ->).
    cbn [Num.le]. split; nra.
  - intros d1 d2 Hle.
    assert (Hd1 : Num.is_nan d1 = false) by (destruct d1; try reflexivity; contradiction).
    assert (Hd2 : Num.is_nan d2 = false)
      by (destruct d1, d2; try reflexivity; contradiction).
    destruct (Hnorm d1 Hd1) as (n1 & Hn1 & _ & ->).
    destruct (Hnorm d2 Hd2) as (n2 & Hn2 & _ & ->).
    pose proof (@normDb_mono a lo hi Hlo Hhi Hrange d1 d2 n1 n2 Hle Hn1 Hn2).
    cbn [Num.le]. nra.
  - exact normDb_configured_mid.
  - rewrite (@mapY_of_norm configured h _ _ normDb_configured_mid).
    f_equal. lra.
Qed.

Lemma mapY_clamped_antitone_witness :
  Num.le (mapY configured (Num.Fin 150) (Num.Fin (-20)))
         (mapY configured (Num.Fin 150) (Num.Fin (-70)))
  /\ Num.le (mapY configured (Num.Fin 150) Num.NInf) (Num.Fin 150).
Proof.
  assert (Hr : -90 < -10) by lra.
  assert (Hh : 0 <= 150) by lra.
  destruct (@mapY_clamped_antitone configured (-90) (-10) 150
              eq_refl eq_refl Hr Hh) as (_ & _ & Hb & Hm & _).
  split.
  - apply Hm. cbn. lra.
  - apply Hb. reflexivity.
Defined.

End DecibelHeightClaim.

Section Waveform.
Local Open Scope R_scope.

(** The [j]-th turn of the sample loop, started at index [k] with the
    abscissa [x0]: [j] slices further, at the height of sample [k + j]. *)
Lemma waveTrace_nth (time : list Num.t) (mid : Num.t) (sw : R) :
  forall (n k : nat) (x0 : R) (j : nat), (j < n)%nat ->
    nth_error (waveTrace time mid (Num.Fin sw) (seq k n) (Num.Fin x0)) j
    = Some (pen (k + j) (Num.Fin (x0 + IZR (Z.of_nat j) * sw))
              (waveY mid (at_index time (k + j)))).
Proof.
  induction n as [| n IH]; intros k x0 j Hj; [lia |].
  destruct j as [| j]; cbn [seq waveTrace nth_error].
  - rewrite Nat.add_0_r.
    replace (x0 + IZR (Z.of_nat 0) * sw) with x0
      by (change (Z.of_nat 0) with 0%Z; lra).
    reflexivity.
  - cbn [Num.add]. rewrite IH by lia.
    replace (S k + j)%nat with (k + S j)%nat by lia.
    replace (x0 + sw + IZR (Z.of_nat j) * sw)
      with (x0 + IZR (Z.of_nat (S j)) * sw); [reflexivity |].
    rewrite Nat2Z.inj_succ, succ_IZR. lra.
Qed.

Lemma waveTrace_length (time : list Num.t) (mid sw : Num.t) :
  forall (idx : list nat) (x : Num.t),
    List.length (waveTrace time mid sw idx x) = List.length idx.
Proof.
  induction idx as [| i idx IH]; intro x; cbn [waveTrace List.length].
  - reflexivity.
  - now rewrite IH.
Qed.

Lemma midOf_fin (d : Dims) (H : R) :
  waveHeight d = Num.Fin H -> midOf d = Num.Fin (H / 2).
Proof. intro E. unfold midOf. rewrite E. apply div_fin. lra. Qed.

Lemma waveY_fin (m s : R) :
  waveY (Num.Fin m) (Num.Fin s) = Num.Fin (m - s * m).
Proof. reflexivity. Qed.

End Waveform.

Section WaveformClaim.
Local Open Scope R_scope.

(** Turn [j] of the sample loop: the abscissa is what [j] additions of the
    slice width make of the starting one. *)
Lemma waveTrace_iter (time : list Num.t) (mid sw : Num.t) :
  forall (n k : nat) (x0 : Num.t) (j : nat), (j < n)%nat ->
    nth_error (waveTrace time mid sw (seq k n) x0) j
    = Some (pen (k + j) (Nat.iter j (fun x => Num.add x sw) x0)
              (waveY mid (at_index time (k + j)))).
Proof.
  induction n as [| n IH]; intros k x0 j Hj; [lia |].
  destruct j as [| j]; cbn [seq waveTrace nth_error].
  - now rewrite Nat.add_0_r.
  - rewrite IH by lia.
    replace (S k + j)%nat with (k + S j)%nat by lia.
    now rewrite Nat.iter_succ_r.
Qed.

Lemma waveY_antitone (m s1 s2 : R) :
  0 <= m -> s1 <= s2 ->
  Num.le (waveY (Num.Fin m) (Num.Fin s2)) (waveY (Num.Fin m) (Num.Fin s1)).
Proof. intros Hm Hs. rewrite !waveY_fin. cbn [Num.le]. nra. Qed.

(** C8, as amended: sample [i], of amplitude [s] in [-1, 1], is plotted at
    the abscissa reached from 0 by adding the slice width
    [logicalWidth / sampleCount] once per earlier sample, and at the height
    [mid - s * mid] with [mid = logicalHeight / 2].  On a surface of height
    [H >= 0] that height lies in [0, H], does not increase when the
    amplitude increases, and is exactly [H / 2] for the amplitude 0. *)
Theorem waveform_point_as_computed (a : Analyser) (d : Dims)
  (time : list Num.t) (W H s : R) (i : nat) :
  waveWidth d = Num.Fin W -> waveHeight d = Num.Fin H -> 0 <= H ->
  (i < fftSize a)%nat -> at_index time i = Num.Fin s -> -1 <= s <= 1 ->
  nth_error (waveformCmds a d time) (2 + i)
  = Some (pen i
            (Nat.iter i
               (fun x => Num.add x
                           (Num.div (Num.Fin W) (Num.of_nat (fftSize a))))
               (Num.Fin 0))
            (Num.sub (Num.div (Num.Fin H) (Num.Fin 2))
               (Num.mul (Num.Fin s) (Num.div (Num.Fin H) (Num.Fin 2)))))
  /\ (exists y,
        Num.sub (Num.div (Num.Fin H) (Num.Fin 2))
          (Num.mul (Num.Fin s) (Num.div (Num.Fin H) (Num.Fin 2)))
        = Num.Fin y
        /\ 0 <= y <= H)
  /\ (forall s1 s2 : R, -1 <= s1 -> s1 <= s2 -> s2 <= 1 ->
        Num.le (waveY (midOf d) (Num.Fin s2)) (waveY (midOf d) (Num.Fin s1)))
  /\ waveY (midOf d) (Num.Fin 0) = Num.Fin (H / 2).
Proof.
  intros HW HH HH0 Hi Hs Hamp.
  pose proof (midOf_fin d HH) as Hmid.
  split; [| split; [| split]].
  - unfold waveformCmds. cbn [app nth_error Nat.add].
    rewrite nth_error_app1 by (rewrite waveTrace_length, length_seq; exact Hi).
    rewrite waveTrace_iter by exact Hi.
    cbn [Nat.add]. rewrite Hs. unfold sliceWidthOf, midOf, waveY.
    now rewrite HW, HH.
  - rewrite div_fin by lra. cbn [Num.mul Num.sub Num.add Num.neg].
    eexists. split; [reflexivity |]. nra.
  - intros s1 s2 _ Hle _. rewrite Hmid. apply waveY_antitone; lra.
  - rewrite Hmid, waveY_fin. f_equal. lra.
Qed.

Lemma waveform_point_as_computed_witness :
  nth_error
    (waveformCmds configured
       {| specWidth := Num.Fin 300; specHeight := Num.Fin 150;
          waveWidth := Num.Fin 300; waveHeight := Num.Fin 150 |}
       [Num.Fin 0; Num.Fin (1 / 2)]) (2 + 1)
  = Some (pen 1
            (Nat.iter 1
               (fun x => Num.add x
                           (Num.div (Num.Fin 300)
                              (Num.of_nat (fftSize configured))))
               (Num.Fin 0))
            (Num.sub (Num.div (Num.Fin 150) (Num.Fin 2))
               (Num.mul (Num.Fin (1 / 2)) (Num.div (Num.Fin 150) (Num.Fin 2))))).
Proof.
  assert (HH : 0 <= 150) by lra.
  assert (Hamp : -1 <= 1 / 2 <= 1) by lra.
  assert (Hi : (1 < fftSize configured)%nat)
    by (apply Nat.ltb_lt; reflexivity).
  exact (proj1 (@waveform_point_as_computed configured
                  {| specWidth := Num.Fin 300; specHeight := Num.Fin 150;
                     waveWidth := Num.Fin 300; waveHeight := Num.Fin 150 |}
                  [Num.Fin 0; Num.Fin (1 / 2)] 300 150 (1 / 2) 1
                  eq_refl eq_refl HH Hi eq_refl Hamp)).
Defined.

(** C8 as stated fails three times over.  In binary64, on a surface 0.1
    wide the running abscissa of the last of the 2048 samples is not
    [2047 * (0.1 / 2048)]; on a surface 150 high the amplitudes 0 and 2^-60
    are drawn at the same height, 75, so that the height is neither an
    affine nor an invertible function of the amplitude.  And on a surface
    of height 0, already in exact arithmetic, both extreme amplitudes are
    drawn at the same height. *)
Lemma waveform_exact_formula_fails :
  PrimFloat.eqb
    (Binary64.runningX
       (Binary64.sliceWidth Binary64.tenth Binary64.len2048) 2047)
    (PrimFloat.mul Binary64.last2047
       (Binary64.sliceWidth Binary64.tenth Binary64.len2048))
  = false
  /\ (PrimFloat.eqb
        (Binary64.sampleY (Binary64.mid Binary64.h150) PrimFloat.zero)
        (Binary64.sampleY (Binary64.mid Binary64.h150) Binary64.tiny)
      = true
      /\ PrimFloat.eqb PrimFloat.zero Binary64.tiny = false
      /\ PrimFloat.leb Binary64.tiny PrimFloat.one = true
      /\ PrimFloat.eqb
           (Binary64.sampleY (Binary64.mid Binary64.h150) PrimFloat.zero)
           (Binary64.sampleY (Binary64.mid Binary64.h150) PrimFloat.one)
         = false)
  /\ (let d := {| specWidth := Num.Fin 300; specHeight := Num.Fin 0;
                  waveWidth := Num.Fin 300; waveHeight := Num.Fin 0 |} in
      waveY (midOf d) (Num.Fin 1) = waveY (midOf d) (Num.Fin (-1))
      /\ 1 <> -1).
Proof.
  split; [vm_compute; reflexivity |].
  split; [repeat split; vm_compute; reflexivity |].
  cbn zeta. split; [| lra].
  rewrite (@midOf_fin _ 0) by reflexivity.
  rewrite !waveY_fin. f_equal. lra.
Qed.

End WaveformClaim.

(** ** The controller *)

Section Teardown.

Lemma errorShown_onDom (e : Thrown) (w : World) :
  errorShown e w
  = onDom (fun d =>
      withDisabled false
        (withStatus "Error" (withErr false (messageOr e "Capture failed") d)))
      w.
Proof. destruct w as [d dm c s]. reflexivity. Qed.

Lemma stopCapture_world (w : World) :
  worldOf (stopCapture w)
  = {| dom := withDisabled false
                (withToggleText "Start" (withStatus "Stopped" (dom w)));
       dims := dims w;
       ctl := {| stream := None; audioContext := None;
                 animationId :=
                   match truthyHandle (animationId (ctl w)) with
                   | Some _ => None
                   | None => animationId (ctl w)
                   end;
                 isCapturing := false |};
       sched :=
         match truthyHandle (animationId (ctl w)) with
         | Some h =>
             {| pendingFrames :=
                  List.remove N.eq_dec h (pendingFrames (sched w));
                nextHandle := nextHandle (sched w) |}
         | None => sched w
         end |}.
Proof.
  destruct w as [d dm [s ac h c] [p n]].
  unfold stopCapture, bind, gets, worldOf. cbn [ctl animationId].
  destruct (truthyHandle h); destruct s, ac; reflexivity.
Qed.

Lemma stopCapture_calls (w : World) :
  callsOf (stopCapture w)
  = optCall CancelFrame (truthyHandle (animationId (ctl w)))
    ++ optCall StopTracks (stream (ctl w))
    ++ optCall ContextClose (audioContext (ctl w))
    ++ clearsOf (dims w).
Proof.
  destruct w as [d dm [s ac h c] [p n]].
  unfold stopCapture, bind, gets, callsOf. cbn [ctl animationId].
  destruct (truthyHandle h); destruct s, ac; reflexivity.
Qed.

Lemma truthyHandle_stopped (w : World) :
  truthyHandle (animationId (ctl (worldOf (stopCapture w)))) = None.
Proof.
  rewrite stopCapture_world. cbn [ctl animationId].
  destruct (animationId (ctl w)) as [h |] eqn:E; cbn [truthyHandle];
    [| reflexivity].
  destruct (N.eqb h 0) eqn:E0; [| reflexivity].
  cbn [truthyHandle]. now rewrite E0.
Qed.

(** A second [stopCapture] changes nothing and only repeats the clears. *)
Lemma stopCapture_twice_world (w : World) :
  worldOf (stopCapture (worldOf (stopCapture w))) = worldOf (stopCapture w).
Proof.
  rewrite (stopCapture_world (worldOf (stopCapture w))).
  rewrite truthyHandle_stopped.
  rewrite stopCapture_world. reflexivity.
Qed.

Lemma stopCapture_twice_calls (w : World) :
  callsOf (stopCapture (worldOf (stopCapture w))) = clearsOf (dims w).
Proof.
  rewrite stopCapture_calls, truthyHandle_stopped.
  rewrite stopCapture_world. reflexivity.
Qed.

End Teardown.

Section Handlers.

Lemma startCapture_busy (w : World) :
  isCapturing (ctl w) = true -> startCapture w = (None, w, []).
Proof.
  intro H. unfold startCapture, bind, gets. now rewrite H.
Qed.

Lemma startCapture_fresh (w : World) :
  isCapturing (ctl w) = false ->
  startCapture w
  = (Some AwaitCapture,
     onDom (fun d =>
       withDisabled true
         (withStatus "Starting..." (withErr true EmptyString d))) w,
     [CaptureRequest]).
Proof.
  intro H. unfold startCapture, bind, gets. rewrite H.
  destruct w as [d dm c s]. reflexivity.
Qed.

Lemma onCatch_world (e : Thrown) (w : World) :
  worldOf (onCatch e w) = worldOf (stopCapture (errorShown e w)).
Proof.
  destruct w as [d dm [s ac h c] [p n]].
  unfold onCatch, stopCapture, bind, gets, worldOf. cbn [ctl animationId].
  cbn. destruct (truthyHandle h); destruct s, ac; reflexivity.
Qed.

Lemma onCatch_calls (e : Thrown) (w : World) :
  callsOf (onCatch e w)
  = ConsoleError e :: callsOf (stopCapture (errorShown e w)).
Proof.
  destruct w as [d dm [s ac h c] [p n]].
  unfold onCatch, stopCapture, bind, gets, callsOf. cbn [ctl animationId].
  cbn. destruct (truthyHandle h); destruct s, ac; reflexivity.
Qed.

Lemma draw_world (a : Analyser) (fd : FrameData) (w : World) :
  worldOf (draw a fd w)
  = {| dom := dom w;
       dims := dims w;
       ctl := withAnimationId (Some (nextHandle (sched w))) (ctl w);
       sched := {| pendingFrames :=
                     nextHandle (sched w) :: pendingFrames (sched w);
                   nextHandle := N.succ (nextHandle (sched w)) |} |}.
Proof. destruct w as [d dm c [p n]]. reflexivity. Qed.

Lemma draw_calls (a : Analyser) (fd : FrameData) (w : World) :
  callsOf (draw a fd w)
  = FrameBegin (isCapturing (ctl w))
    :: map (Paint SpecCanvas) (spectrumCmds a (dims w) (freqSnapshot fd))
    ++ map (Paint WaveCanvas) (waveformCmds a (dims w) (timeSnapshot fd))
    ++ [RequestFrame (nextHandle (sched w))].
Proof. destruct w as [d dm c [p n]]. reflexivity. Qed.

Lemma worldOf_bind {A B} (m : M A) (k : A -> M B) (w : World) :
  worldOf (bind m k w) = worldOf (k (valueOf (m w)) (worldOf (m w))).
Proof.
  unfold bind, worldOf, valueOf.
  destruct (m w) as [[x w1] l1]. cbn [fst snd].
  destruct (k x w1) as [[y w2] l2]. reflexivity.
Qed.

Lemma callsOf_bind {A B} (m : M A) (k : A -> M B) (w : World) :
  callsOf (bind m k w)
  = callsOf (m w) ++ callsOf (k (valueOf (m w)) (worldOf (m w))).
Proof.
  unfold bind, callsOf, worldOf, valueOf.
  destruct (m w) as [[x w1] l1]. cbn [fst snd].
  destruct (k x w1) as [[y w2] l2]. reflexivity.
Qed.

Lemma valueOf_bind {A B} (m : M A) (k : A -> M B) (w : World) :
  valueOf (bind m k w) = valueOf (k (valueOf (m w)) (worldOf (m w))).
Proof.
  unfold bind, worldOf, valueOf.
  destruct (m w) as [[x w1] l1]. cbn [fst snd].
  destruct (k x w1) as [[y w2] l2]. reflexivity.
Qed.

(** The three ways [afterCapture] ends. *)
Lemma afterCapture_rejected (e : Thrown) (mk : Thrown + ContextId) (w : World) :
  worldOf (afterCapture (inl e) mk w) = worldOf (onCatch e w)
  /\ valueOf (afterCapture (inl e) mk w) = None
  /\ callsOf (afterCapture (inl e) mk w) = callsOf (onCatch e w).
Proof.
  unfold afterCapture.
  rewrite worldOf_bind, valueOf_bind, callsOf_bind.
  cbn [ret worldOf valueOf callsOf fst snd].
  now rewrite app_nil_r.
Qed.

Lemma afterCapture_no_context (st : StreamId) (e : Thrown) (w : World) :
  worldOf (afterCapture (inr st) (inl e) w)
  = worldOf (onCatch e (onCtl (withStream (Some st)) w))
  /\ valueOf (afterCapture (inr st) (inl e) w) = None
  /\ callsOf (afterCapture (inr st) (inl e) w)
     = callsOf (onCatch e (onCtl (withStream (Some st)) w)).
Proof.
  unfold afterCapture.
  rewrite !worldOf_bind, !valueOf_bind, !callsOf_bind.
  cbn [ret modify worldOf valueOf callsOf fst snd app].
  now rewrite app_nil_r.
Qed.

Lemma afterCapture_granted (st : StreamId) (ac : ContextId) (w : World) :
  afterCapture (inr st) (inr ac) w
  = (Some AwaitResume,
     onCtl (withAudioContext (Some ac)) (onCtl (withStream (Some st)) w),
     [NewAudioContext ac; ContextResume ac]).
Proof. destruct w as [d dm c s]. reflexivity. Qed.

(** The ways [afterResume] ends. *)
Lemma afterResume_rejected (e : Thrown) (g : option Thrown) (fd : FrameData)
  (w : World) :
  afterResume (Some e) g fd w = onCatch e w.
Proof. reflexivity. Qed.

Lemma gets_bind {A B} (f : World -> A) (k : A -> M B) (w : World) :
  (x <- gets f ;; k x) w = k (f w) w.
Proof.
  unfold bind, gets. destruct (k (f w) w) as [[b w2] l2]. reflexivity.
Qed.

Lemma afterResume_no_context (g : option Thrown) (fd : FrameData) (w : World) :
  audioContext (ctl w) = None ->
  afterResume None g fd w = onCatch nullRead w.
Proof.
  intro H. unfold afterResume. rewrite gets_bind, H. reflexivity.
Qed.

Lemma afterResume_graph_fault (ac : ContextId) (e : Thrown) (fd : FrameData)
  (w : World) :
  audioContext (ctl w) = Some ac ->
  afterResume None (Some e) fd w = onCatch e w.
Proof.
  intro H. unfold afterResume. rewrite gets_bind, H. reflexivity.
Qed.

Lemma afterResume_started (ac : ContextId) (fd : FrameData) (w : World) :
  audioContext (ctl w) = Some ac ->
  worldOf (afterResume None None fd w)
  = onDom (fun d =>
      withDisabled false (withToggleText "Stop" (withStatus "Capturing..." d)))
      (onCtl (withCapturing true) (worldOf (draw configured fd w)))
  /\ callsOf (afterResume None None fd w)
     = BuildGraph ac (stream (ctl w)) configured
       :: callsOf (draw configured fd w).
Proof.
  intro H. unfold afterResume. rewrite gets_bind, H, gets_bind.
  split; [destruct w as [d dm c [p n]]; reflexivity |].
  rewrite !callsOf_bind.
  cbn [emit modify setStatus callsOf snd app].
  now rewrite !app_nil_r.
Qed.

End Handlers.

(** ** What every reachable page satisfies *)

Section Invariant.

Lemma Tidy_onDom (f : Dom -> Dom) (w : World) : Tidy (onDom f w) <-> Tidy w.
Proof. destruct w as [d dm c s]. unfold Tidy. cbn. tauto. Qed.

Lemma Tidy_withDims (dm : Dims) (w : World) : Tidy (withDims dm w) <-> Tidy w.
Proof. destruct w as [d dm' c s]. unfold Tidy. cbn. tauto. Qed.

Lemma remove_single (h : Handle) : List.remove N.eq_dec h [h] = [].
Proof. cbn. destruct (N.eq_dec h h); [reflexivity | contradiction]. Qed.

(** [stopCapture] leaves a tidy world with nothing due. *)
Lemma stop_settles (w : World) :
  Tidy w ->
  Tidy (worldOf (stopCapture w))
  /\ pendingFrames (sched (worldOf (stopCapture w))) = []
  /\ animationId (ctl (worldOf (stopCapture w))) = None.
Proof.
  intros (Hn & H0 & Hp). rewrite stopCapture_world.
  assert (E : pendingFrames
                (match truthyHandle (animationId (ctl w)) with
                 | Some h =>
                     {| pendingFrames :=
                          List.remove N.eq_dec h (pendingFrames (sched w));
                        nextHandle := nextHandle (sched w) |}
                 | None => sched w
                 end) = []
              /\ nextHandle
                   (match truthyHandle (animationId (ctl w)) with
                    | Some h =>
                        {| pendingFrames :=
                             List.remove N.eq_dec h (pendingFrames (sched w));
                           nextHandle := nextHandle (sched w) |}
                    | None => sched w
                    end) = nextHandle (sched w)
              /\ match truthyHandle (animationId (ctl w)) with
                 | Some _ => None
                 | None => animationId (ctl w)
                 end = None).
  { destruct (animationId (ctl w)) as [h |] eqn:Ea; cbn [truthyHandle].
    - destruct (N.eqb h 0) eqn:E0;
        [apply N.eqb_eq in E0; subst h; contradiction |].
      cbn [pendingFrames nextHandle].
      destruct Hp as [-> | (h' & -> & Eh & _)]; [now cbn |].
      injection Eh as <-. now rewrite remove_single.
    - destruct Hp as [-> | (h' & _ & Eh & _)]; [now cbn | discriminate]. }
  destruct E as (Ep & En & Ea).
  unfold Tidy. cbn [sched ctl animationId].
  rewrite Ep, En, Ea. repeat split; auto. discriminate.
Qed.

Lemma catch_settles (e : Thrown) (w : World) :
  Tidy w ->
  Tidy (worldOf (onCatch e w))
  /\ pendingFrames (sched (worldOf (onCatch e w))) = []
  /\ animationId (ctl (worldOf (onCatch e w))) = None.
Proof.
  intro H. rewrite onCatch_world. apply stop_settles.
  rewrite errorShown_onDom. now apply Tidy_onDom.
Qed.

Lemma Tidy_onCtl_quiet (f : Ctl -> Ctl) (w : World) :
  (forall c, animationId (f c) = animationId c) ->
  pendingFrames (sched w) = [] ->
  Tidy w -> Tidy (onCtl f w).
Proof.
  intros Hf Hq (Hn & H0 & _). destruct w as [d dm c s].
  unfold Tidy. cbn in *. rewrite Hf. auto.
Qed.

(** A frame requested in a world with nothing due, once capture is on. *)
Lemma Tidy_started (f : Dom -> Dom) (a : Analyser) (fd : FrameData) (w : World) :
  nextHandle (sched w) <> 0%N ->
  pendingFrames (sched w) = [] ->
  Tidy (onDom f (onCtl (withCapturing true) (worldOf (draw a fd w)))).
Proof.
  intros Hn Hq. apply Tidy_onDom. rewrite draw_world.
  unfold Tidy. cbn. rewrite Hq. repeat split.
  - apply N.neq_succ_0.
  - intro E. injection E as E. contradiction.
  - right. eexists. repeat split.
Qed.

Lemma Inv_boot (d0 : Dom) (l : Layout) : Inv (boot d0 l).
Proof.
  unfold Inv, boot, Tidy. cbn. repeat split; auto; discriminate.
Qed.

End Invariant.

Section Steps.

Lemma onResize_world (l : Layout) (w : World) :
  worldOf (onResize l w)
  = withDims {| specWidth := fst (specRect l); specHeight := snd (specRect l);
                waveWidth := fst (waveRect l); waveHeight := snd (waveRect l) |}
      w.
Proof.
  destruct w as [d dm [s ac h c] sc].
  unfold onResize, bind, worldOf. cbn. destruct c; reflexivity.
Qed.

Lemma inflight_single (sy : Sys) (k : nat) (c : Await) :
  Inv sy -> alive sy = true -> nth_error (inflight sy) k = Some c ->
  inflight sy = [c] /\ dropNth k (inflight sy) = []
  /\ toggleDisabled (dom (world sy)) = true
  /\ isCapturing (ctl (world sy)) = false
  /\ pendingFrames (sched (world sy)) = [].
Proof.
  intros [_ Hf] Ha Hk. destruct (Hf Ha) as [E | ((c' & E) & Hd & Hc & Hp)];
    rewrite E in Hk |- *.
  - destruct k; discriminate.
  - destruct k as [| k]; cbn in Hk; [| destruct k; discriminate].
    injection Hk as ->. auto.
Qed.

Lemma step_inv (sy sy' : Sys) (ev : Event) :
  Inv sy -> step sy ev = Some sy' -> Inv sy'.
Proof.
  intros HI Hs. pose proof HI as [Ht Hf].
  unfold step in Hs. destruct (alive sy) eqn:Ha; cbn [negb] in Hs;
    [| discriminate].
  specialize (Hf eq_refl).
  destruct ev as [| | l | k le s mk | k r g fd | h fd | e].
  - (* Click *)
    destruct (toggleDisabled (dom (world sy))) eqn:Ed; [discriminate |].
    injection Hs as <-.
    assert (Hfl : inflight sy = []).
    { destruct Hf as [E | (_ & Hd & _)]; [exact E | congruence]. }
    unfold Inv, after. cbn [world inflight alive].
    unfold onClick. rewrite gets_bind.
    destruct (isCapturing (ctl (world sy))) eqn:Ec.
    + rewrite worldOf_bind, valueOf_bind. cbn [ret worldOf valueOf fst snd].
      split; [now apply stop_settles |].
      intros _. left. now rewrite Hfl.
    + rewrite (startCapture_fresh _ Ec). cbn [worldOf valueOf fst snd spawn].
      split; [now apply Tidy_onDom |].
      intros _. right. rewrite Hfl.
      assert (Hq : pendingFrames (sched (world sy)) = []).
      { destruct Ht as (_ & _ & [Hp | (h & _ & _ & Hc)]);
          [exact Hp | congruence]. }
      destruct (world sy) as [d dm c sc].
      split; [now eexists |].
      split; [reflexivity |].
      split; [exact Ec | exact Hq].
  - (* Unload *)
    injection Hs as <-. unfold Inv, after, onUnload. cbn [world inflight alive].
    split; [now apply stop_settles | discriminate].
  - (* Resize *)
    injection Hs as <-. unfold Inv, after. cbn [world inflight alive].
    rewrite onResize_world.
    split; [now apply Tidy_withDims |].
    intros _. destruct (world sy) as [d dm c sc]. exact Hf.
  - (* CaptureSettled *)
    destruct (nth_error (inflight sy) k) as [[|] |] eqn:Hk; try discriminate.
    injection Hs as <-.
    destruct (inflight_single _ HI Ha Hk) as (_ & -> & Hd & Hc & Hp).
    unfold Inv, after. cbn [world inflight alive].
    destruct (captureAudio le s) as [e | st].
    + destruct (afterCapture_rejected e mk (world sy)) as (-> & -> & _).
      split; [now apply catch_settles |]. intros _. now left.
    + destruct mk as [e | ac].
      * destruct (afterCapture_no_context st e (world sy)) as (-> & -> & _).
        split; [| intros _; now left].
        apply catch_settles. apply Tidy_onCtl_quiet; auto.
      * rewrite afterCapture_granted. cbn [worldOf valueOf fst snd spawn app].
        split.
        { apply Tidy_onCtl_quiet; [reflexivity | |].
          - now destruct (world sy) as [d dm c sc].
          - apply Tidy_onCtl_quiet; auto. }
        intros _. right. destruct (world sy) as [d dm c sc].
        split; [now eexists |].
        split; [exact Hd |].
        split; [exact Hc | exact Hp].
  - (* ResumeSettled *)
    destruct (nth_error (inflight sy) k) as [[|] |] eqn:Hk; try discriminate.
    injection Hs as <-.
    destruct (inflight_single _ HI Ha Hk) as (_ & -> & Hd & Hc & Hp).
    unfold Inv, after. cbn [world inflight alive].
    split; [| intros _; now left].
    destruct r as [e |]; [now apply catch_settles |].
    destruct (audioContext (ctl (world sy))) as [ac |] eqn:Eac.
    + destruct g as [e |].
      * rewrite (afterResume_graph_fault e fd _ Eac). now apply catch_settles.
      * destruct (afterResume_started fd _ Eac) as [-> _].
        apply Tidy_started; [apply Ht | exact Hp].
    + rewrite (afterResume_no_context g fd _ Eac). now apply catch_settles.
  - (* Frame *)
    destruct (memHandle h (pendingFrames (sched (world sy)))) eqn:Hm;
      [| discriminate].
    injection Hs as <-.
    destruct Ht as (Hn & H0 & [Hp | (h' & Hp & Eh & Hc)]);
      [rewrite Hp in Hm; discriminate |].
    assert (h = h').
    { rewrite Hp in Hm. cbn in Hm. rewrite orb_false_r in Hm.
      now apply N.eqb_eq. }
    subst h'.
    unfold Inv, after. cbn [world inflight alive].
    rewrite worldOf_bind. cbn [takeFrame modify worldOf valueOf fst snd].
    rewrite draw_world. split.
    + destruct (world sy) as [d dm c [p n]]. cbn in *. subst p.
      rewrite remove_single. unfold Tidy. cbn. repeat split.
      * apply N.neq_succ_0.
      * intro E. injection E as E. contradiction.
      * right. eexists. repeat split. exact Hc.
    + intros _. left.
      destruct Hf as [E | (_ & _ & _ & Hq)]; [exact E | congruence].
  - (* CloseRejected *)
    injection Hs as <-. unfold Inv, after. cbn [world inflight alive].
    split; [exact Ht | intros _; exact Hf].
Qed.

Lemma run_inv (evs : list Event) :
  forall sy sy', Inv sy -> run sy evs = Some sy' -> Inv sy'.
Proof.
  induction evs as [| ev evs IH]; intros sy sy' HI Hr; cbn [run] in Hr.
  - now injection Hr as <-.
  - destruct (step sy ev) as [sy1 |] eqn:Hs; [| discriminate].
    eapply IH; [| exact Hr]. eapply step_inv; eauto.
Qed.

Lemma Reachable_Inv (d0 : Dom) (l : Layout) (sy : Sys) :
  Reachable d0 l sy -> Inv sy.
Proof.
  intros [evs Hr]. eapply run_inv; [apply Inv_boot | exact Hr].
Qed.

End Steps.

(** ** Re-entry of [startCapture] *)

Section Reentry.

Lemma Sample_capturing_reachable :
  Reachable Sample.page Sample.layout Sample.capturing.
Proof. exists Sample.toCapturing. reflexivity. Qed.

Lemma Sample_starting_reachable :
  Reachable Sample.page Sample.layout Sample.starting.
Proof. exists Sample.toStarting. reflexivity. Qed.

End Reentry.

(** ** When frames run *)

Section Frames.

(** C2, as amended: every frame the scheduler runs finds [isCapturing]
    set, and once [stopCapture] has run no frame is due, so none runs
    until the next start.  (The first execution of [draw] is not one of
    these: it is the direct call at the end of [startCapture], made just
    before the flag is set.) *)
Theorem scheduled_frames_run_while_capturing (d0 : Dom) (l : Layout)
  (sy : Sys) :
  Reachable d0 l sy ->
  (forall (h : Handle) (fd : FrameData) (sy' : Sys),
     step sy (Frame h fd) = Some sy' ->
     isCapturing (ctl (world sy)) = true
     /\ exists rest, calls sy' = calls sy ++ FrameBegin true :: rest)
  /\ pendingFrames (sched (worldOf (stopCapture (world sy)))) = []
  /\ (forall sy' : Sys,
        world sy' = worldOf (stopCapture (world sy)) ->
        forall (h : Handle) (fd : FrameData), step sy' (Frame h fd) = None).
Proof.
  intro HR. destruct (Reachable_Inv HR) as [Ht _].
  pose proof (stop_settles Ht) as (_ & Hq & _).
  split; [| split; [exact Hq |]].
  - intros h fd sy' Hs. unfold step in Hs.
    destruct (alive sy); cbn [negb] in Hs; [| discriminate].
    destruct (memHandle h (pendingFrames (sched (world sy)))) eqn:Hm;
      [| discriminate].
    injection Hs as <-.
    assert (Hc : isCapturing (ctl (world sy)) = true).
    { destruct Ht as (_ & _ & [Hp | (h' & _ & _ & Hc)]); [| exact Hc].
      rewrite Hp in Hm. discriminate. }
    split; [exact Hc |].
    unfold after. cbn [calls]. rewrite callsOf_bind.
    cbn [takeFrame modify callsOf worldOf valueOf fst snd app].
    rewrite draw_calls. eexists. f_equal. f_equal.
    destruct (world sy) as [d dm c sc]. cbn in *. now rewrite Hc.
  - intros sy' Hw h fd. unfold step.
    destruct (alive sy'); cbn [negb]; [| reflexivity].
    rewrite Hw, Hq. reflexivity.
Qed.

Lemma scheduled_frames_run_while_capturing_witness :
  isCapturing (ctl (world Sample.capturing)) = true
  /\ pendingFrames
       (sched (worldOf (stopCapture (world Sample.capturing)))) = [].
Proof.
  destruct (scheduled_frames_run_while_capturing Sample_capturing_reachable)
    as (Hf & Hq & _).
  split; [| exact Hq].
  exact (proj1 (Hf 1%N Sample.silence _ eq_refl)).
Defined.

(** C2 as stated fails on the first frame: in the session that reaches
    capture, [draw] is entered once with [isCapturing] still false. *)
Lemma first_frame_drawn_before_capturing :
  In (FrameBegin false) (calls Sample.capturing).
Proof. apply nth_error_In with (n := 8). reflexivity. Qed.

End Frames.

(** ** Failure of a start *)

Section Failure.

Lemma catch_dom (e : Thrown) (w : World) :
  dom (worldOf (onCatch e w))
  = withDisabled false
      (withToggleText "Start"
         (withStatus "Stopped" (dom (errorShown e w)))).
Proof. rewrite onCatch_world, stopCapture_world. reflexivity. Qed.

Lemma catch_ctl (e : Thrown) (w : World) :
  stream (ctl (worldOf (onCatch e w))) = None
  /\ audioContext (ctl (worldOf (onCatch e w))) = None
  /\ isCapturing (ctl (worldOf (onCatch e w))) = false.
Proof. rewrite onCatch_world, stopCapture_world. now cbn. Qed.

(** Every failed start ends in the [catch] clause, run in some world. *)
Lemma FailedStart_caught (w w' : World) (e : Thrown) :
  FailedStart w e w' -> exists w0, w' = worldOf (onCatch e w0).
Proof.
  intros [le s mk e' E | st e' | e' g fd | ac e' fd Hac | g fd Hac].
  - rewrite E. exists w. apply afterCapture_rejected.
  - eexists. apply afterCapture_no_context.
  - exists w. reflexivity.
  - exists w. now rewrite (afterResume_graph_fault e' fd _ Hac).
  - exists w. now rewrite (afterResume_no_context g fd _ Hac).
Qed.

(** C3, at the input where it fails: the page is asked to start and the
    capture request is refused with the message "Permission denied".
    The message is shown, the button is enabled again, nothing is left
    of the session and nothing escapes; but the status reads "Stopped",
    not "Error". *)
Theorem refused_capture_ends_stopped :
  run (boot Sample.page Sample.layout) Sample.toRefused = Some Sample.refused
  /\ statusText (dom (world Sample.refused)) = "Stopped"%string
  /\ statusText (dom (world Sample.refused)) <> "Error"%string
  /\ errHidden (dom (world Sample.refused)) = false
  /\ errText (dom (world Sample.refused)) = "Permission denied"%string
  /\ toggleDisabled (dom (world Sample.refused)) = false
  /\ ctl (world Sample.refused)
     = {| stream := None; audioContext := None;
          animationId := None; isCapturing := false |}
  /\ inflight Sample.refused = [].
Proof. repeat split. discriminate. Qed.

(** C10: after every failed start the status reads "Stopped" and not
    "Error": the world it leaves is the one [stopCapture] makes of the
    world [showError] has left (the button enabled in between);
    [showError] sets the status to "Error", whatever it was, and
    [stopCapture] sets it to "Stopped", whatever it was.  The error box
    stays visible with the message of the failure (or "Capture failed"
    when it has none) through stops, resizes, frames and rejected closes,
    until the next [startCapture] hides it. *)
Theorem failed_start_leaves_stopped (w w' : World) (e : Thrown) :
  FailedStart w e w' ->
  (exists w0,
     statusText
       (dom (worldOf (showError (messageOr e "Capture failed") w0)))
     = "Error"%string
     /\ w' = worldOf
               (stopCapture
                  (onDom (withDisabled false)
                     (worldOf (showError (messageOr e "Capture failed") w0)))))
  /\ (forall (m : string) (w1 : World),
        statusText (dom (worldOf (showError m w1))) = "Error"%string
        /\ errHidden (dom (worldOf (showError m w1))) = false
        /\ errText (dom (worldOf (showError m w1))) = m)
  /\ (forall w1 : World,
        statusText (dom (worldOf (stopCapture w1))) = "Stopped"%string)
  /\ statusText (dom w') = "Stopped"%string
  /\ statusText (dom w') <> "Error"%string
  /\ errHidden (dom w') = false
  /\ errText (dom w') = messageOr e "Capture failed"
  /\ (forall w1 : World,
        errHidden (dom (worldOf (stopCapture w1))) = errHidden (dom w1)
        /\ errText (dom (worldOf (stopCapture w1))) = errText (dom w1))
  /\ (forall (l : Layout) (w1 : World),
        dom (worldOf (onResize l w1)) = dom w1)
  /\ (forall (a : Analyser) (fd : FrameData) (w1 : World),
        dom (worldOf (draw a fd w1)) = dom w1)
  /\ (forall (e1 : Thrown) (w1 : World),
        worldOf (onCloseRejected e1 w1) = w1)
  /\ errHidden (dom (worldOf (startCapture w'))) = true
  /\ errText (dom (worldOf (startCapture w'))) = EmptyString.
Proof.
  intro HF. destruct (FailedStart_caught HF) as [w0 ->].
  pose proof (catch_dom e w0) as Hd.
  pose proof (catch_ctl e w0) as (_ & _ & Hc).
  split; [exists w0; split; [reflexivity | apply onCatch_world] |].
  split; [intros m w1; repeat split |].
  split; [intro w1; rewrite stopCapture_world; reflexivity |].
  rewrite (startCapture_fresh _ Hc). rewrite Hd.
  split; [reflexivity |].
  split; [discriminate |].
  split; [reflexivity |].
  split; [reflexivity |].
  split; [intro w1; rewrite stopCapture_world; split; reflexivity |].
  split; [intros l w1; rewrite onResize_world; now destruct w1 |].
  split; [intros a fd w1; rewrite draw_world; reflexivity |].
  split; [reflexivity |].
  split; reflexivity.
Qed.

Lemma failed_start_leaves_stopped_witness :
  statusText (dom (world Sample.refused)) = "Stopped"%string
  /\ errHidden (dom (world Sample.refused)) = false
  /\ errText (dom (world Sample.refused)) = "Permission denied"%string.
Proof.
  assert (HF : FailedStart (world Sample.starting) Sample.refusal
                 (world Sample.refused)).
  { exact (@FailCapture (world Sample.starting)
             (Some (Some "Permission denied"%string)) None (inr 3)
             Sample.refusal eq_refl). }
  destruct (failed_start_leaves_stopped HF)
    as (_ & _ & _ & Hs & _ & Hh & Ht & _).
  repeat split; assumption.
Defined.

End Failure.

(** ** Stopping *)

Section Stopping.

(** C4: [stopCapture] never fails, and on every page the host can reach
    (the freshly loaded one, where capture was never started, among them)
    a second call in a row finds nothing to cancel, stop or close: it
    leaves the world as the first call left it and only repeats the two
    clears.  After a stop there is no stream, no audio context, no frame
    handle and no frame due, the capture is off, the status reads
    "Stopped" and the button reads "Start" and is enabled. *)
Theorem stop_idempotent (d0 : Dom) (l : Layout) (sy : Sys) :
  Reachable d0 l sy ->
  let w1 := worldOf (stopCapture (world sy)) in
  worldOf (stopCapture w1) = w1
  /\ callsOf (stopCapture w1) = clearsOf (dims (world sy))
  /\ ctl w1 = {| stream := None; audioContext := None;
                 animationId := None; isCapturing := false |}
  /\ pendingFrames (sched w1) = []
  /\ dom w1 = withDisabled false
                (withToggleText "Start"
                   (withStatus "Stopped" (dom (world sy))))
  /\ dims w1 = dims (world sy)
  /\ callsOf (stopCapture (world (boot d0 l)))
     = clearsOf (dims (world (boot d0 l)))
  /\ worldOf (stopCapture (world (boot d0 l)))
     = onDom (fun d =>
         withDisabled false (withToggleText "Start" (withStatus "Stopped" d)))
         (world (boot d0 l)).
Proof.
  intro HR. cbv zeta. destruct (Reachable_Inv HR) as [Ht _].
  pose proof (stop_settles Ht) as (_ & Hq & Ha).
  split; [apply stopCapture_twice_world |].
  split; [apply stopCapture_twice_calls |].
  split.
  { rewrite stopCapture_world in Ha |- *. cbn [ctl animationId] in Ha |- *.
    now rewrite Ha. }
  split; [exact Hq |].
  split; [rewrite stopCapture_world; reflexivity |].
  split; [rewrite stopCapture_world; reflexivity |].
  split; [rewrite stopCapture_calls; reflexivity |].
  rewrite stopCapture_world. reflexivity.
Qed.

Lemma stop_idempotent_witness :
  worldOf (stopCapture (worldOf (stopCapture (world Sample.capturing))))
  = worldOf (stopCapture (world Sample.capturing))
  /\ callsOf (stopCapture (worldOf (stopCapture (world Sample.capturing))))
     = clearsOf (dims (world Sample.capturing)).
Proof.
  destruct (stop_idempotent Sample_capturing_reachable) as (H1 & H2 & _).
  split; assumption.
Defined.

Lemma clears_sorted (d : Dims) : StronglySorted inTeardownOrder (clearsOf d).
Proof.
  unfold clearsOf. repeat constructor; unfold inTeardownOrder; cbn; lia.
Qed.

(** C5: the calls of [stopCapture] are, in this order: the cancellation
    of the frame [animationId] names, the stop of the stream's tracks,
    the close of the audio context -- each present exactly when its
    resource is -- and the clears of the spectrum and of the waveform
    surface.  A rejected close reaches a handler that does nothing: the
    world, the error box included, is as it was. *)
Theorem stop_teardown_order (w : World) :
  callsOf (stopCapture w)
  = optCall CancelFrame (truthyHandle (animationId (ctl w)))
    ++ optCall StopTracks (stream (ctl w))
    ++ optCall ContextClose (audioContext (ctl w))
    ++ clearsOf (dims w)
  /\ StronglySorted inTeardownOrder (callsOf (stopCapture w))
  /\ (forall e : Thrown, onCloseRejected e w = (tt, w, [])).
Proof.
  split; [apply stopCapture_calls |].
  split; [| reflexivity].
  rewrite stopCapture_calls.
  destruct (truthyHandle (animationId (ctl w))), (stream (ctl w)),
    (audioContext (ctl w)); cbn [optCall app];
    repeat match goal with
           | |- StronglySorted _ (_ :: _) =>
               apply SSorted_cons;
               [| unfold clearsOf;
                  repeat (apply Forall_cons;
                          [unfold inTeardownOrder; cbn; lia |]);
                  apply Forall_nil]
           end;
    apply clears_sorted.
Qed.

End Stopping.

(** ** Resizing during a capture *)

Section Resizing.

Lemma onResize_calls_capturing (l : Layout) (w : World) :
  isCapturing (ctl w) = true ->
  callsOf (onResize l w)
  = [ AssignSize SpecCanvas (Num.mul (fst (specRect l)) (dprOr1 l))
        (Num.mul (snd (specRect l)) (dprOr1 l));
      Paint SpecCanvas (Scale (dprOr1 l) (dprOr1 l));
      AssignSize WaveCanvas (Num.mul (fst (waveRect l)) (dprOr1 l))
        (Num.mul (snd (waveRect l)) (dprOr1 l));
      Paint WaveCanvas (Scale (dprOr1 l) (dprOr1 l)) ].
Proof.
  intro Hc. destruct w as [d dm [s ac h c] sc]. cbn in Hc. subst c.
  reflexivity.
Qed.

(** In the bucket loop, the curve drawn on turn [j + 1] has for control
    point the point computed on turn [j]: the abscissa [logX] gives to
    the first bin of bucket [k + j]. *)
Lemma specCurve_control (a : Analyser) (d : Dims) (freq : list Num.t) :
  forall (n k : nat) (px py : Num.t) (j : nat), S j < n ->
    exists cy mx my,
      nth_error (specCurve a d freq (seq k n) px py) (S j)
      = Some (QuadraticCurveTo
                (logX (frequencyBinCount a) (specWidth d)
                   ((k + j) * BINS_PER_BUCKET))
                cy mx my).
Proof.
  induction n as [| n IH]; intros k px py j Hj; [lia |].
  cbn [seq specCurve nth_error].
  destruct j as [| j].
  - destruct n as [| n]; [lia |].
    cbn [seq specCurve nth_error]. rewrite Nat.add_0_r.
    do 3 eexists. reflexivity.
  - destruct (IH (S k) (logX (frequencyBinCount a) (specWidth d)
                          (k * BINS_PER_BUCKET))
                (mapY a (specHeight d) (bucketAvg freq (k * BINS_PER_BUCKET)))
                j ltac:(lia)) as (cy & mx & my & E).
    exists cy, mx, my. rewrite E.
    replace (S k + j) with (k + S j) by lia. reflexivity.
Qed.

Lemma specCurve_length (a : Analyser) (d : Dims) (freq : list Num.t) :
  forall (bs : list nat) (px py : Num.t),
    List.length (specCurve a d freq bs px py) = List.length bs.
Proof.
  induction bs as [| b bs IH]; intros px py; cbn [specCurve List.length].
  - reflexivity.
  - now rewrite IH.
Qed.

Lemma laterBuckets_configured :
  laterBuckets (frequencyBinCount configured) = seq 1 127.
Proof. reflexivity. Qed.

(** C9, as amended: a resize while the capture is on leaves the stream, the
    audio context, the frame handle, the capturing flag, the frame due and
    the document as they are, and calls neither [clearRect] nor anything
    of the teardown.  For a layout with finite boxes and a pixel ratio
    [k <> 0] it assigns to each canvas its logical size times [k], scales
    each context by [k], and stores the new logical dimensions.  The next
    frame then places bucket [b] of the spectrum at
    [log10 (8 b + 1) / log10 1024] times the width of that resize. *)
Theorem resize_keeps_capture (l : Layout) (fd : FrameData) (w : World)
  (sw sh ww wh k : R) :
  isCapturing (ctl w) = true ->
  specRect l = (Num.Fin sw, Num.Fin sh) ->
  waveRect l = (Num.Fin ww, Num.Fin wh) ->
  devicePixelRatio l = Some (Num.Fin k) -> k <> 0%R ->
  let w' := worldOf (onResize l w) in
  ctl w' = ctl w /\ sched w' = sched w /\ dom w' = dom w
  /\ dims w' = {| specWidth := Num.Fin sw; specHeight := Num.Fin sh;
                  waveWidth := Num.Fin ww; waveHeight := Num.Fin wh |}
  /\ callsOf (onResize l w)
     = [ AssignSize SpecCanvas (Num.Fin (sw * k)) (Num.Fin (sh * k));
         Paint SpecCanvas (Scale (Num.Fin k) (Num.Fin k));
         AssignSize WaveCanvas (Num.Fin (ww * k)) (Num.Fin (wh * k));
         Paint WaveCanvas (Scale (Num.Fin k) (Num.Fin k)) ]
  /\ (forall e : Effect,
        In e (callsOf (onResize l w)) -> teardownRank e = None)
  /\ (forall b : nat, 1 <= b < 127 ->
        exists cy mx my,
          nth_error (callsOf (draw configured fd w')) (4 + b)
          = Some (Paint SpecCanvas
                    (QuadraticCurveTo
                       (Num.Fin (ln (IZR (Z.of_nat (b * 8)) + 1) / ln 10
                                 / (ln 1024 / ln 10) * sw))
                       cy mx my))).
Proof.
  intros Hc Hs Hw Hd Hk. cbv zeta. rewrite onResize_world.
  assert (Hdpr : dprOr1 l = Num.Fin k).
  { unfold dprOr1. rewrite Hd. cbn [Num.truthy].
    destruct (Req_dec_T k 0); [contradiction | reflexivity]. }
  assert (Hcalls : callsOf (onResize l w)
     = [ AssignSize SpecCanvas (Num.Fin (sw * k)) (Num.Fin (sh * k));
         Paint SpecCanvas (Scale (Num.Fin k) (Num.Fin k));
         AssignSize WaveCanvas (Num.Fin (ww * k)) (Num.Fin (wh * k));
         Paint WaveCanvas (Scale (Num.Fin k) (Num.Fin k)) ]).
  { rewrite (onResize_calls_capturing l _ Hc), Hdpr, Hs, Hw. reflexivity. }
  split; [now destruct w |].
  split; [now destruct w |].
  split; [now destruct w |].
  split; [rewrite Hs, Hw; now destruct w |].
  split; [exact Hcalls |].
  split.
  { rewrite Hcalls. intros e He. cbn [In] in He.
    destruct He as [<- | [<- | [<- | [<- | []]]]]; reflexivity. }
  intros b [Hb1 Hb2]. rewrite draw_calls.
  destruct b as [| j]; [lia |].
  set (d' := dims (withDims _ w)).
  assert (HdW : specWidth d' = Num.Fin sw).
  { unfold d'. rewrite Hs. now destruct w. }
  destruct (specCurve_control configured d' (freqSnapshot fd)
              (n := 127) 1 (Num.Fin 0)
              (mapY configured (specHeight d')
                 (bucketAvg (freqSnapshot fd) 0))
              (j := j) ltac:(lia)) as (cy & mx & my & E).
  rewrite HdW, logX_fin in E by (cbv; lia).
  change (Z.of_nat (frequencyBinCount configured)) with 1024%Z in E.
  change BINS_PER_BUCKET with 8 in E.
  exists cy, mx, my.
  change (4 + S j) with (S (3 + S j)). cbn [nth_error].
  assert (Hlen : List.length
                   (specCurve configured d' (freqSnapshot fd) (seq 1 127)
                      (Num.Fin 0)
                      (mapY configured (specHeight d')
                         (bucketAvg (freqSnapshot fd) 0))) = 127).
  { now rewrite specCurve_length, length_seq. }
  rewrite nth_error_app1.
  2:{ rewrite length_map. unfold spectrumCmds.
      rewrite laterBuckets_configured, !length_app, Hlen.
      cbn [List.length]. lia. }
  rewrite nth_error_map. unfold spectrumCmds.
  rewrite laterBuckets_configured.
  cbn [app nth_error Nat.add].
  match goal with
  | |- context [match ?c with [] => None | _ :: l' => nth_error l' j end] =>
      change (match c with [] => None | _ :: l' => nth_error l' j end)
        with (nth_error c (S j))
  end.
  rewrite nth_error_app1 by (rewrite Hlen; lia).
  rewrite E. reflexivity.
Qed.

Lemma resize_keeps_capture_witness :
  ctl (worldOf (onResize Sample.wider (world Sample.capturing)))
  = ctl (world Sample.capturing)
  /\ callsOf (onResize Sample.wider (world Sample.capturing))
     = [ AssignSize SpecCanvas (Num.Fin (400 * 2)) (Num.Fin (150 * 2));
         Paint SpecCanvas (Scale (Num.Fin 2) (Num.Fin 2));
         AssignSize WaveCanvas (Num.Fin (400 * 2)) (Num.Fin (150 * 2));
         Paint WaveCanvas (Scale (Num.Fin 2) (Num.Fin 2)) ].
Proof.
  assert (H2 : 2%R <> 0%R) by lra.
  destruct (@resize_keeps_capture Sample.wider Sample.silence
              (world Sample.capturing) 400 150 400 150 2
              eq_refl eq_refl eq_refl eq_refl H2)
    as (Hc & _ & _ & _ & Hk & _).
  split; [exact Hc | exact Hk].
Defined.

(** C9 as stated has the surfaces not cleared.  The script calls no
    [clearRect], but the resize assigns the width and height of both
    canvases, and that assignment blanks the bitmap in the host: both
    surfaces are blank until the next frame draws them again. *)
Lemma resize_resets_both_bitmaps :
  isCapturing (ctl (world Sample.capturing)) = true
  /\ (exists e,
        In e (callsOf (onResize Sample.wider (world Sample.capturing)))
        /\ resetsBitmap e = Some SpecCanvas)
  /\ (exists e,
        In e (callsOf (onResize Sample.wider (world Sample.capturing)))
        /\ resetsBitmap e = Some WaveCanvas).
Proof.
  split; [reflexivity |].
  rewrite (@onResize_calls_capturing Sample.wider (world Sample.capturing)
             eq_refl).
  split; eexists.
  - split; [left; reflexivity | reflexivity].
  - split; [right; right; left; reflexivity | reflexivity].
Qed.

End Resizing.

(* ================================================================== *)
(** * More of the script *)

(** ** The phases are kept *)

Section Phases.

Lemma stop_released (w : World) :
  Tidy w -> Released (worldOf (stopCapture w)).
Proof.
  intro Ht. destruct (stop_settles Ht) as (_ & Hq & Ha).
  split; [| exact Hq].
  rewrite stopCapture_world in Ha |- *. cbn [ctl animationId] in Ha |- *.
  now rewrite Ha.
Qed.

Lemma stop_dom (w : World) :
  dom (worldOf (stopCapture w))
  = withDisabled false (withToggleText "Start" (withStatus "Stopped" (dom w))).
Proof. rewrite stopCapture_world. reflexivity. Qed.

Lemma catch_released (e : Thrown) (w : World) :
  Tidy w -> Released (worldOf (onCatch e w)).
Proof.
  intro Ht. rewrite onCatch_world. apply stop_released.
  rewrite errorShown_onDom. now apply Tidy_onDom.
Qed.

Lemma Released_onDom (f : Dom -> Dom) (w : World) :
  Released (onDom f w) <-> Released w.
Proof. destruct w as [d dm c s]. unfold Released. cbn. tauto. Qed.

Lemma Released_withDims (dm : Dims) (w : World) :
  Released (withDims dm w) <-> Released w.
Proof. destruct w as [d dm' c s]. unfold Released. cbn. tauto. Qed.

(** After a stop or a caught failure the page is at rest, or closed. *)
Lemma rest_after_stop (sy : Sys) (A : Type) (r : A * World * list Effect)
  (w0 : World) :
  worldOf r = worldOf (stopCapture w0) -> Tidy w0 ->
  Shape (after sy r [] true) Idle.
Proof.
  intros E Ht. apply AtRest; unfold after; cbn [world inflight alive];
    try reflexivity.
  - rewrite E. now apply stop_released.
  - right. rewrite E, stop_dom. repeat split.
Qed.

Lemma rest_after_catch (sy : Sys) (A : Type) (r : A * World * list Effect)
  (e : Thrown) (w0 : World) :
  worldOf r = worldOf (onCatch e w0) -> Tidy w0 ->
  Shape (after sy r [] true) Idle.
Proof.
  intros E Ht. apply AtRest; unfold after; cbn [world inflight alive];
    try reflexivity.
  - rewrite E. now apply catch_released.
  - right. rewrite E, catch_dom. repeat split.
Qed.

Lemma step_shape (sy sy' : Sys) (p : Lifecycle) (ev : Event) :
  Inv sy -> Shape sy p -> step sy ev = Some sy' -> exists p', Shape sy' p'.
Proof.
  intros HI HS Hs. pose proof HI as [Ht _].
  unfold step in Hs. destruct (alive sy) eqn:Ha; cbn [negb] in Hs;
    [| discriminate].
  destruct ev as [| | l | k le s mk | k r g fd | h fd | e].
  - (* Click *)
    destruct (toggleDisabled (dom (world sy))) eqn:Ed; [discriminate |].
    injection Hs as <-. unfold onClick. rewrite gets_bind.
    destruct HS as [_ Hfl [Hc Hq] _ | _ _ _ (_ & Hd & _)
                   | st ac _ _ _ _ (_ & Hd & _)
                   | st ac h _ Hfl Hc Hq Hh _ _ _ _ | Hd _ _];
      try congruence.
    + rewrite Hc. cbn [isCapturing].
      rewrite startCapture_fresh by (now rewrite Hc).
      cbn [valueOf fst snd]. rewrite Hfl. cbn [spawn app].
      exists Requesting. apply AtRequest; unfold after;
        cbn [world inflight alive worldOf fst snd]; try reflexivity.
      * apply Released_onDom. now split.
      * destruct (world sy) as [d dm c sc]. repeat split.
    + rewrite Hc. cbn [isCapturing].
      rewrite valueOf_bind. cbn [ret valueOf fst snd]. rewrite Hfl.
      cbn [spawn]. exists Idle.
      apply rest_after_stop with (w0 := world sy); [| exact Ht].
      rewrite worldOf_bind. reflexivity.
  - (* Unload *)
    injection Hs as <-. exists Closed. unfold onUnload.
    apply AtClose; unfold after; cbn [world inflight alive]; try reflexivity.
    + now apply stop_released.
    + now rewrite stop_dom.
  - (* Resize *)
    injection Hs as <-. exists p.
    assert (Hw : forall f : World -> Prop,
               (forall dm w, f (withDims dm w) <-> f w) ->
               f (world sy) ->
               f (world (after sy (onResize l (world sy)) (inflight sy) true))).
    { intros f Hf H. unfold after. cbn [world]. rewrite onResize_world.
      now apply Hf. }
    assert (Hd : dom (world (after sy (onResize l (world sy)) (inflight sy) true))
                 = dom (world sy)).
    { unfold after. cbn [world]. rewrite onResize_world.
      now destruct (world sy). }
    assert (Hc : ctl (world (after sy (onResize l (world sy)) (inflight sy) true))
                 = ctl (world sy)).
    { unfold after. cbn [world]. rewrite onResize_world.
      now destruct (world sy). }
    assert (Hp : sched (world (after sy (onResize l (world sy)) (inflight sy) true))
                 = sched (world sy)).
    { unfold after. cbn [world]. rewrite onResize_world.
      now destruct (world sy). }
    destruct HS as [H1 H2 H3 H4 | H1 H2 H3 H4 | st ac H1 H2 H3 H4 H5
                   | st ac h H1 H2 H3 H4 H5 H6 H7 H8 H9 | H1 H2 H3].
    + apply AtRest; rewrite ?Hd; auto.
      unfold Released. now rewrite Hc, Hp.
    + apply AtRequest; rewrite ?Hd; auto.
      unfold Released. now rewrite Hc, Hp.
    + apply AtResume with st ac; rewrite ?Hd, ?Hc, ?Hp; auto.
    + apply AtCapture with st ac h; rewrite ?Hd, ?Hc, ?Hp; auto.
    + congruence.
  - (* CaptureSettled *)
    destruct (nth_error (inflight sy) k) as [[|] |] eqn:Hk; try discriminate.
    injection Hs as <-.
    destruct (inflight_single _ HI Ha Hk) as (Hfl & -> & _).
    destruct HS as [_ Hfl' _ _ | _ _ [Hc Hq] Hsd | st ac _ Hfl' _ _ _
                   | st ac h _ Hfl' _ _ _ _ _ _ _ | Hd _ _];
      try congruence.
    destruct (captureAudio le s) as [e | st].
    + destruct (afterCapture_rejected e mk (world sy)) as (Hw & -> & _).
      exists Idle. now apply rest_after_catch with (e := e) (w0 := world sy).
    + destruct mk as [e | ac].
      * destruct (afterCapture_no_context st e (world sy)) as (Hw & -> & _).
        exists Idle.
        apply rest_after_catch
          with (e := e) (w0 := onCtl (withStream (Some st)) (world sy));
          [exact Hw |].
        apply Tidy_onCtl_quiet; auto.
      * rewrite afterCapture_granted. cbn [valueOf fst snd spawn app].
        exists Resuming.
        apply AtResume with st ac; unfold after;
          cbn [world inflight alive worldOf fst snd]; try reflexivity.
        -- destruct (world sy) as [d dm c sc]. cbn in Hc |- *. now subst c.
        -- destruct (world sy) as [d dm c sc]. exact Hq.
        -- destruct (world sy) as [d dm c sc]. exact Hsd.
  - (* ResumeSettled *)
    destruct (nth_error (inflight sy) k) as [[|] |] eqn:Hk; try discriminate.
    injection Hs as <-.
    destruct (inflight_single _ HI Ha Hk) as (Hfl & -> & _).
    destruct HS as [_ Hfl' _ _ | _ Hfl' _ _ | st ac _ _ Hc Hq Hsd
                   | st ac h _ Hfl' _ _ _ _ _ _ _ | Hd _ _];
      try congruence.
    assert (Hac : audioContext (ctl (world sy)) = Some ac) by now rewrite Hc.
    destruct r as [e |].
    { exists Idle. now apply rest_after_catch with (e := e) (w0 := world sy). }
    destruct g as [e |].
    { exists Idle.
      apply rest_after_catch with (e := e) (w0 := world sy); [| exact Ht].
      now rewrite (afterResume_graph_fault e fd _ Hac). }
    destruct (afterResume_started fd _ Hac) as [Hw _].
    exists Capturing.
    apply AtCapture with st ac (nextHandle (sched (world sy)));
      unfold after; cbn [world inflight alive];
      rewrite ?Hw, ?draw_world; try reflexivity.
    + cbn. now rewrite Hc.
    + cbn. now rewrite Hq.
    + apply Ht.
    + cbn. apply Hsd.
  - (* Frame *)
    destruct (memHandle h (pendingFrames (sched (world sy)))) eqn:Hm;
      [| discriminate].
    injection Hs as <-.
    destruct HS as [_ _ [_ Hq] _ | _ _ [_ Hq] _ | st ac _ _ _ Hq _
                   | st ac h' _ Hfl Hc Hq Hh H6 H7 H8 H9 | Hd _ _];
      try (rewrite Hq in Hm; discriminate); try congruence.
    assert (h = h').
    { rewrite Hq in Hm. cbn in Hm. rewrite orb_false_r in Hm.
      now apply N.eqb_eq. }
    subst h'. exists Capturing.
    apply AtCapture with st ac (nextHandle (sched (world sy)));
      unfold after; cbn [world inflight alive]; auto;
      rewrite ?worldOf_bind; cbn [takeFrame modify worldOf valueOf fst snd];
      rewrite ?draw_world; destruct (world sy) as [d dm c [pf n]];
      cbn in *; subst; rewrite ?remove_single; auto.
    apply Ht.
  - (* CloseRejected *)
    injection Hs as <-. exists p.
    destruct HS as [H1 H2 H3 H4 | H1 H2 H3 H4 | st ac H1 H2 H3 H4 H5
                   | st ac h H1 H2 H3 H4 H5 H6 H7 H8 H9 | H1 H2 H3].
    + now apply AtRest.
    + now apply AtRequest.
    + now apply AtResume with st ac.
    + now apply AtCapture with st ac h.
    + congruence.
Qed.

End Phases.

Section PhaseInvariant.

Lemma Shape_boot (d0 : Dom) (l : Layout) : Shape (boot d0 l) Idle.
Proof.
  apply AtRest; try reflexivity.
  - split; reflexivity.
  - left. reflexivity.
Qed.

Lemma run_shape (evs : list Event) :
  forall (sy sy' : Sys) (p : Lifecycle),
    Inv sy -> Shape sy p -> run sy evs = Some sy' -> exists p', Shape sy' p'.
Proof.
  induction evs as [| ev evs IH]; intros sy sy' p HI HS Hr; cbn [run] in Hr.
  - injection Hr as <-. now exists p.
  - destruct (step sy ev) as [sy1 |] eqn:Hs; [| discriminate].
    destruct (@step_shape _ _ _ _ HI HS Hs) as [p1 HS1].
    eapply IH; [| exact HS1 | exact Hr]. eapply step_inv; eauto.
Qed.

Lemma Reachable_Shape (d0 : Dom) (l : Layout) (sy : Sys) :
  Reachable d0 l sy -> exists p, Shape sy p.
Proof.
  intros [evs Hr].
  eapply run_shape; [apply Inv_boot | apply Shape_boot | exact Hr].
Qed.

Lemma truthyHandle_nonzero (h : Handle) :
  h <> 0%N -> truthyHandle (Some h) = Some h.
Proof.
  intro Hh. cbn. destruct (N.eqb h 0) eqn:E; [| reflexivity].
  apply N.eqb_eq in E. contradiction.
Qed.

(** X1: on every page the host can reach, the status text tells the
    phase: it reads "Capturing..." exactly when [isCapturing] is set and
    "Starting..." exactly when the popup is open with an invocation of
    [startCapture] suspended; it is always one of "Idle", "Starting...",
    "Capturing...", "Stopped", and never "Error". *)
Theorem status_tells_phase (d0 : Dom) (l : Layout) (sy : Sys) :
  Reachable d0 l sy ->
  (statusText (dom (world sy)) = "Capturing..."%string
   <-> isCapturing (ctl (world sy)) = true)
  /\ (statusText (dom (world sy)) = "Starting..."%string
      <-> (alive sy = true /\ inflight sy <> []))
  /\ (statusText (dom (world sy)) = "Idle"%string
      \/ statusText (dom (world sy)) = "Starting..."%string
      \/ statusText (dom (world sy)) = "Capturing..."%string
      \/ statusText (dom (world sy)) = "Stopped"%string)
  /\ statusText (dom (world sy)) <> "Error"%string.
Proof.
  intro HR. destruct (Reachable_Shape HR) as [p HS].
  destruct HS as [Ha Hfl [Hc Hq] [Hs | (Hs & _)]
                 | Ha Hfl [Hc Hq] (Hs & _)
                 | st ac Ha Hfl Hc Hq (Hs & _)
                 | st ac h Ha Hfl Hc Hq Hh Hs _ _ _
                 | Ha [Hc Hq] Hs];
    rewrite Hs, Hc; cbn [isCapturing];
    (split; [split; intro; discriminate || reflexivity |]);
    (split; [split; [try discriminate; intros _; split; congruence
                    | intros [H1 H2]; try reflexivity; congruence] |]);
    (split; [auto | discriminate]).
Qed.

Lemma status_tells_phase_witness :
  statusText (dom (world Sample.capturing)) = "Capturing..."%string
  <-> isCapturing (ctl (world Sample.capturing)) = true.
Proof.
  exact (proj1 (status_tells_phase Sample_capturing_reachable)).
Defined.

(** X2: on every page the host can reach, while [isCapturing] is set the
    script holds one stream, one audio context and the handle of the one
    frame that is due, the button reads "Stop" and is enabled and the error
    box is hidden; while it is not set, no frame handle is kept and no
    frame is due. *)
Theorem capturing_holds_one_session (d0 : Dom) (l : Layout) (sy : Sys) :
  Reachable d0 l sy ->
  (isCapturing (ctl (world sy)) = true ->
   exists (st : StreamId) (ac : ContextId) (h : Handle),
     stream (ctl (world sy)) = Some st
     /\ audioContext (ctl (world sy)) = Some ac
     /\ animationId (ctl (world sy)) = Some h
     /\ pendingFrames (sched (world sy)) = [h]
     /\ toggleText (dom (world sy)) = "Stop"%string
     /\ toggleDisabled (dom (world sy)) = false
     /\ errHidden (dom (world sy)) = true)
  /\ (isCapturing (ctl (world sy)) = false ->
      animationId (ctl (world sy)) = None
      /\ pendingFrames (sched (world sy)) = []).
Proof.
  intro HR. destruct (Reachable_Shape HR) as [p HS].
  destruct HS as [Ha Hfl [Hc Hq] _
                 | Ha Hfl [Hc Hq] _
                 | st ac Ha Hfl Hc Hq _
                 | st ac h Ha Hfl Hc Hq Hh Hs Ht Hd He
                 | Ha [Hc Hq] Hs];
    rewrite Hc; cbn [isCapturing stream audioContext animationId];
    (split; [intro H; try discriminate | intro H; try discriminate; auto]).
  exists st, ac, h. repeat split; assumption.
Qed.

Lemma capturing_holds_one_session_witness :
  exists (st : StreamId) (ac : ContextId) (h : Handle),
    stream (ctl (world Sample.capturing)) = Some st
    /\ audioContext (ctl (world Sample.capturing)) = Some ac
    /\ animationId (ctl (world Sample.capturing)) = Some h
    /\ pendingFrames (sched (world Sample.capturing)) = [h]
    /\ toggleText (dom (world Sample.capturing)) = "Stop"%string
    /\ toggleDisabled (dom (world Sample.capturing)) = false
    /\ errHidden (dom (world Sample.capturing)) = true.
Proof.
  exact (proj1 (capturing_holds_one_session Sample_capturing_reachable)
           eq_refl).
Defined.

End PhaseInvariant.

(** ** What a stop and a failure release *)

Section Release.

Lemma stop_calls_of_session (w : World) (st : StreamId) (ac : ContextId)
  (h : Handle) :
  ctl w = {| stream := Some st; audioContext := Some ac;
             animationId := Some h; isCapturing := true |} ->
  h <> 0%N ->
  callsOf (stopCapture w)
  = [CancelFrame h; StopTracks st; ContextClose ac] ++ clearsOf (dims w).
Proof.
  intros Hc Hh. rewrite stopCapture_calls, Hc.
  cbn [animationId stream audioContext].
  now rewrite truthyHandle_nonzero.
Qed.

Lemma onClick_capturing (w : World) :
  isCapturing (ctl w) = true ->
  worldOf (onClick w) = worldOf (stopCapture w)
  /\ valueOf (onClick w) = None
  /\ callsOf (onClick w) = callsOf (stopCapture w).
Proof.
  intro Hc. unfold onClick. rewrite gets_bind, Hc.
  rewrite worldOf_bind, valueOf_bind, callsOf_bind.
  cbn [ret worldOf valueOf callsOf fst snd]. now rewrite app_nil_r.
Qed.

(** X3: a click on "Stop", or the closing of the popup, during a capture
    releases exactly what the session holds: it cancels the one frame that
    is due, stops the tracks of the session's stream and closes the
    session's audio context, in this order, then clears both surfaces; the
    page is left holding nothing. *)
Theorem stop_releases_the_session (d0 : Dom) (l : Layout) (sy : Sys) :
  Reachable d0 l sy ->
  isCapturing (ctl (world sy)) = true ->
  exists (st : StreamId) (ac : ContextId) (h : Handle),
    stream (ctl (world sy)) = Some st
    /\ audioContext (ctl (world sy)) = Some ac
    /\ pendingFrames (sched (world sy)) = [h]
    /\ (exists sy',
          step sy Click = Some sy'
          /\ calls sy' = calls sy
                         ++ [CancelFrame h; StopTracks st; ContextClose ac]
                         ++ clearsOf (dims (world sy))
          /\ Released (world sy')
          /\ inflight sy' = [] /\ alive sy' = true)
    /\ (exists sy',
          step sy Unload = Some sy'
          /\ calls sy' = calls sy
                         ++ [CancelFrame h; StopTracks st; ContextClose ac]
                         ++ clearsOf (dims (world sy))
          /\ Released (world sy')
          /\ alive sy' = false).
Proof.
  intros HR Hcap. destruct (Reachable_Inv HR) as [Ht _].
  destruct (Reachable_Shape HR) as [p HS].
  destruct HS as [Ha Hfl [Hc Hq] _
                 | Ha Hfl [Hc Hq] _
                 | st ac Ha Hfl Hc Hq _
                 | st ac h Ha Hfl Hc Hq Hh Hs Htx Hd He
                 | Ha [Hc Hq] Hs];
    try (rewrite Hc in Hcap; discriminate).
  exists st, ac, h. rewrite Hc. cbn [stream audioContext].
  split; [reflexivity |]. split; [reflexivity |]. split; [exact Hq |].
  pose proof (stop_calls_of_session _ Hc Hh) as Hcalls.
  destruct (onClick_capturing _ Hcap) as (Hw & Hv & Hk).
  split.
  - eexists. unfold step. rewrite Ha, Hd. cbn [negb].
    split; [reflexivity |]. unfold after. cbn [calls world inflight alive].
    rewrite Hk, Hcalls, Hw, Hv, Hfl.
    split; [reflexivity |].
    split; [now apply stop_released | split; reflexivity].
  - eexists. unfold step. rewrite Ha. cbn [negb].
    split; [reflexivity |]. unfold after, onUnload.
    cbn [calls world inflight alive]. rewrite Hcalls.
    split; [reflexivity |].
    split; [now apply stop_released | reflexivity].
Qed.

Lemma stop_releases_the_session_witness :
  exists (st : StreamId) (ac : ContextId) (h : Handle),
    stream (ctl (world Sample.capturing)) = Some st
    /\ audioContext (ctl (world Sample.capturing)) = Some ac
    /\ pendingFrames (sched (world Sample.capturing)) = [h]
    /\ (exists sy',
          step Sample.capturing Click = Some sy'
          /\ calls sy' = calls Sample.capturing
                         ++ [CancelFrame h; StopTracks st; ContextClose ac]
                         ++ clearsOf (dims (world Sample.capturing))
          /\ Released (world sy')
          /\ inflight sy' = [] /\ alive sy' = true)
    /\ (exists sy',
          step Sample.capturing Unload = Some sy'
          /\ calls sy' = calls Sample.capturing
                         ++ [CancelFrame h; StopTracks st; ContextClose ac]
                         ++ clearsOf (dims (world Sample.capturing))
          /\ Released (world sy')
          /\ alive sy' = false).
Proof.
  exact (stop_releases_the_session Sample_capturing_reachable eq_refl).
Defined.

Lemma catch_calls_of (e : Thrown) (w : World) :
  animationId (ctl w) = None ->
  callsOf (onCatch e w)
  = ConsoleError e
    :: optCall StopTracks (stream (ctl w))
    ++ optCall ContextClose (audioContext (ctl w))
    ++ clearsOf (dims w).
Proof.
  intro Ha. rewrite onCatch_calls, stopCapture_calls.
  destruct w as [d dm c sc]. cbn in Ha |- *. now rewrite Ha.
Qed.

(** After a caught failure: nothing is held, no invocation is suspended,
    the status reads "Stopped", the button reads "Start" and is enabled, and
    the error box shows the message. *)
Lemma settled_after_catch (sy : Sys) (A : Type) (r : A * World * list Effect)
  (e : Thrown) (w0 : World) :
  worldOf r = worldOf (onCatch e w0) -> Tidy w0 ->
  Released (world (after sy r [] true))
  /\ inflight (after sy r [] true) = []
  /\ alive (after sy r [] true) = true
  /\ statusText (dom (world (after sy r [] true))) = "Stopped"%string
  /\ toggleText (dom (world (after sy r [] true))) = "Start"%string
  /\ toggleDisabled (dom (world (after sy r [] true))) = false
  /\ errHidden (dom (world (after sy r [] true))) = false
  /\ errText (dom (world (after sy r [] true))) = messageOr e "Capture failed".
Proof.
  intros E Ht. unfold after. cbn [world inflight alive]. rewrite E.
  split; [now apply catch_released |].
  rewrite catch_dom. repeat split.
Qed.

(** X4: a start that fails after the stream was handed over gives it
    back.  If [new AudioContext()] throws, the tracks of the stream just
    received are stopped; if [resume()] rejects or the graph cannot be
    built, the tracks are stopped and the audio context is closed.  In
    each case the error is logged first, and the page is left holding
    nothing, with no invocation suspended, the status "Stopped", the
    button reading "Start" and enabled, and the error box showing the
    message of the failure. *)
Theorem failed_start_gives_stream_back (d0 : Dom) (l : Layout) (sy : Sys) :
  Reachable d0 l sy -> alive sy = true ->
  (inflight sy = [AwaitCapture] ->
   forall (st : StreamId) (e : Thrown),
   exists sy',
     step sy (CaptureSettled 0 None (Some st) (inl e)) = Some sy'
     /\ calls sy' = calls sy
                    ++ [ConsoleError e; StopTracks st]
                    ++ clearsOf (dims (world sy))
     /\ Released (world sy')
     /\ inflight sy' = [] /\ alive sy' = true
     /\ statusText (dom (world sy')) = "Stopped"%string
     /\ toggleText (dom (world sy')) = "Start"%string
     /\ toggleDisabled (dom (world sy')) = false
     /\ errHidden (dom (world sy')) = false
     /\ errText (dom (world sy')) = messageOr e "Capture failed")
  /\ (inflight sy = [AwaitResume] ->
      exists (st : StreamId) (ac : ContextId),
        stream (ctl (world sy)) = Some st
        /\ audioContext (ctl (world sy)) = Some ac
        /\ forall (e : Thrown) (r g : option Thrown) (fd : FrameData),
             (r = Some e \/ (r = None /\ g = Some e)) ->
             exists sy',
               step sy (ResumeSettled 0 r g fd) = Some sy'
               /\ calls sy' = calls sy
                              ++ [ConsoleError e; StopTracks st;
                                  ContextClose ac]
                              ++ clearsOf (dims (world sy))
               /\ Released (world sy')
               /\ inflight sy' = [] /\ alive sy' = true
               /\ statusText (dom (world sy')) = "Stopped"%string
               /\ toggleText (dom (world sy')) = "Start"%string
               /\ toggleDisabled (dom (world sy')) = false
               /\ errHidden (dom (world sy')) = false
               /\ errText (dom (world sy')) = messageOr e "Capture failed").
Proof.
  intros HR Ha. destruct (Reachable_Inv HR) as [Ht _].
  destruct (Reachable_Shape HR) as [p HS].
  destruct HS as [_ Hfl [Hc Hq] _
                 | _ Hfl [Hc Hq] Hsd
                 | st ac _ Hfl Hc Hq Hsd
                 | st ac h _ Hfl Hc Hq Hh Hs Htx Hd He
                 | Ha' _ _];
    try congruence; (split; [| intro Hfl'; try congruence]);
    try (intro Hfl'; congruence).
  - (* suspended at the request *)
    intros _ st e. eexists. unfold step. rewrite Ha, Hfl. cbn [negb nth_error].
    split; [reflexivity |].
    destruct (afterCapture_no_context st e (world sy)) as (Hw & Hv & Hk).
    cbn [captureAudio].
    split.
    + unfold after. cbn [calls]. rewrite Hk, catch_calls_of.
      * destruct (world sy) as [d dm c sc]. cbn in Hc |- *. now subst c.
      * destruct (world sy) as [d dm c sc]. cbn in Hc |- *. now subst c.
    + rewrite Hv. cbn [dropNth spawn].
      apply settled_after_catch
        with (w0 := onCtl (withStream (Some st)) (world sy));
        [exact Hw |].
      apply Tidy_onCtl_quiet; auto.
  - (* suspended at the resume *)
    exists st, ac. rewrite Hc. cbn [stream audioContext].
    split; [reflexivity |]. split; [reflexivity |].
    intros e r g fd Hfail. eexists. unfold step.
    rewrite Ha, Hfl. cbn [negb nth_error].
    split; [reflexivity |].
    assert (Hac : audioContext (ctl (world sy)) = Some ac) by now rewrite Hc.
    assert (E : afterResume r g fd (world sy) = onCatch e (world sy)).
    { destruct Hfail as [-> | [-> ->]]; [reflexivity |].
      now apply afterResume_graph_fault with ac. }
    rewrite E. cbn [dropNth]. split.
    + unfold after. cbn [calls]. rewrite catch_calls_of by now rewrite Hc.
      now rewrite Hc.
    + now apply settled_after_catch with (w0 := world sy).
Qed.

Lemma failed_start_gives_stream_back_witness :
  exists sy',
    step Sample.starting
      (CaptureSettled 0 None (Some 7) (inl Sample.refusal)) = Some sy'
    /\ calls sy' = calls Sample.starting
                   ++ [ConsoleError Sample.refusal; StopTracks 7]
                   ++ clearsOf (dims (world Sample.starting))
    /\ Released (world sy')
    /\ inflight sy' = [] /\ alive sy' = true
    /\ statusText (dom (world sy')) = "Stopped"%string
    /\ toggleText (dom (world sy')) = "Start"%string
    /\ toggleDisabled (dom (world sy')) = false
    /\ errHidden (dom (world sy')) = false
    /\ errText (dom (world sy')) = messageOr Sample.refusal "Capture failed".
Proof.
  exact (proj1 (failed_start_gives_stream_back Sample_starting_reachable
                  eq_refl) eq_refl 7 Sample.refusal).
Defined.

End Release.

(** ** Starting again, and what a frame touches *)

Section Cycle.

(** X5: the page is never stuck after a stop or a failed start: whenever
    the popup is open and the status reads "Stopped", the button is
    enabled and a click sends exactly one capture request, hides the error
    box and suspends one invocation of [startCapture]. *)
Theorem stopped_page_starts_again (d0 : Dom) (l : Layout) (sy : Sys) :
  Reachable d0 l sy -> alive sy = true ->
  statusText (dom (world sy)) = "Stopped"%string ->
  toggleDisabled (dom (world sy)) = false
  /\ exists sy',
       step sy Click = Some sy'
       /\ calls sy' = calls sy ++ [CaptureRequest]
       /\ inflight sy' = [AwaitCapture]
       /\ errHidden (dom (world sy')) = true
       /\ errText (dom (world sy')) = EmptyString
       /\ statusText (dom (world sy')) = "Starting..."%string
       /\ toggleDisabled (dom (world sy')) = true.
Proof.
  intros HR Ha Hst. destruct (Reachable_Shape HR) as [p HS].
  destruct HS as [_ Hfl [Hc Hq] [Hs | (_ & _ & Hd)]
                 | _ Hfl [Hc Hq] (Hs & _)
                 | st ac _ Hfl Hc Hq (Hs & _)
                 | st ac h _ Hfl Hc Hq Hh Hs _ _ _
                 | Ha' _ _];
    try (rewrite Hs in Hst; discriminate); try congruence.
  split; [exact Hd |].
  assert (Hcap : isCapturing (ctl (world sy)) = false) by now rewrite Hc.
  eexists. unfold step. rewrite Ha, Hd. cbn [negb].
  split; [reflexivity |].
  unfold onClick. rewrite gets_bind, Hcap, (startCapture_fresh _ Hcap).
  unfold after. cbn [calls world inflight valueOf worldOf callsOf fst snd].
  rewrite Hfl. destruct (world sy) as [d dm c sc]. repeat split.
Qed.

Lemma stopped_page_starts_again_witness :
  toggleDisabled (dom (world Sample.refused)) = false
  /\ exists sy',
       step Sample.refused Click = Some sy'
       /\ calls sy' = calls Sample.refused ++ [CaptureRequest]
       /\ inflight sy' = [AwaitCapture]
       /\ errHidden (dom (world sy')) = true
       /\ errText (dom (world sy')) = EmptyString
       /\ statusText (dom (world sy')) = "Starting..."%string
       /\ toggleDisabled (dom (world sy')) = true.
Proof.
  assert (HR : Reachable Sample.page Sample.layout Sample.refused)
    by (exists Sample.toRefused; reflexivity).
  exact (stopped_page_starts_again HR eq_refl eq_refl).
Defined.

Lemma Forall_isPaint_map (cv : Canvas) (cs : list Cmd) :
  Forall isPaint (map (Paint cv) cs).
Proof. induction cs as [| c cs IH]; cbn; constructor; auto. exact I. Qed.

(** X6: a frame that the scheduler runs draws and nothing else: it makes
    calls on the two drawing contexts only, then requests exactly one next
    frame, whose handle it stores in [animationId]; the stream, the audio
    context, the capturing flag, the document and the logical dimensions
    are as before, and exactly one frame is due afterwards. *)
Theorem frame_only_draws_and_reschedules (d0 : Dom) (l : Layout) (sy sy' : Sys)
  (h : Handle) (fd : FrameData) :
  Reachable d0 l sy -> step sy (Frame h fd) = Some sy' ->
  let h' := nextHandle (sched (world sy)) in
  ctl (world sy') = withAnimationId (Some h') (ctl (world sy))
  /\ dom (world sy') = dom (world sy)
  /\ dims (world sy') = dims (world sy)
  /\ pendingFrames (sched (world sy')) = [h']
  /\ inflight sy' = inflight sy
  /\ exists paints,
       Forall isPaint paints
       /\ calls sy' = calls sy
                      ++ FrameBegin true :: paints ++ [RequestFrame h'].
Proof.
  intros HR Hs. cbv zeta. destruct (Reachable_Shape HR) as [p HS].
  unfold step in Hs. destruct (alive sy); cbn [negb] in Hs; [| discriminate].
  destruct (memHandle h (pendingFrames (sched (world sy)))) eqn:Hm;
    [| discriminate].
  injection Hs as <-.
  destruct HS as [_ _ [_ Hq] _ | _ _ [_ Hq] _ | st ac _ _ _ Hq _
                 | st ac h0 _ Hfl Hc Hq Hh _ _ _ _ | _ [_ Hq] _];
    try (rewrite Hq in Hm; discriminate).
  assert (h = h0).
  { rewrite Hq in Hm. cbn in Hm. rewrite orb_false_r in Hm.
    now apply N.eqb_eq. }
  subst h0. unfold after. cbn [world inflight calls].
  rewrite worldOf_bind, callsOf_bind.
  cbn [takeFrame modify worldOf valueOf callsOf fst snd app].
  rewrite draw_world, draw_calls.
  assert (Hcap : isCapturing (ctl (world sy)) = true) by now rewrite Hc.
  destruct (world sy) as [d dm c [pf n]].
  cbn [ctl dom dims sched onSched pendingFrames nextHandle] in Hc, Hq, Hcap |- *.
  subst pf. rewrite remove_single, Hcap.
  repeat (split; [reflexivity |]).
  eexists. split; [| rewrite <- app_assoc; reflexivity].
  apply Forall_app. split; apply Forall_isPaint_map.
Qed.

Lemma frame_only_draws_and_reschedules_witness :
  pendingFrames
    (sched (world (Sample.orBoot
                     (step Sample.capturing (Frame 1%N Sample.silence)))))
  = [nextHandle (sched (world Sample.capturing))].
Proof.
  destruct (@frame_only_draws_and_reschedules Sample.page Sample.layout
              Sample.capturing
              (Sample.orBoot (step Sample.capturing (Frame 1%N Sample.silence)))
              1%N Sample.silence Sample_capturing_reachable eq_refl)
    as (_ & _ & _ & Hq & _).
  exact Hq.
Defined.

End Cycle.

(** ** Surfaces *)

Section Surfaces.
Local Open Scope R_scope.

Lemma initCanvases_calls (l : Layout) (w : World) :
  callsOf (initCanvases l w)
  = [ AssignSize SpecCanvas (Num.mul (fst (specRect l)) (dprOr1 l))
        (Num.mul (snd (specRect l)) (dprOr1 l));
      Paint SpecCanvas (Scale (dprOr1 l) (dprOr1 l));
      AssignSize WaveCanvas (Num.mul (fst (waveRect l)) (dprOr1 l))
        (Num.mul (snd (waveRect l)) (dprOr1 l));
      Paint WaveCanvas (Scale (dprOr1 l) (dprOr1 l)) ].
Proof. destruct w as [d dm c sc]. reflexivity. Qed.

Lemma initCanvases_world (l : Layout) (w : World) :
  worldOf (initCanvases l w)
  = withDims {| specWidth := fst (specRect l); specHeight := snd (specRect l);
                waveWidth := fst (waveRect l); waveHeight := snd (waveRect l) |}
      w.
Proof. destruct w as [d dm c sc]. reflexivity. Qed.

Lemma truthy_fin (k : R) : k <> 0 -> Num.truthy (Num.Fin k) = true.
Proof.
  intro Hk. cbn. destruct (Req_dec_T k 0); [contradiction | reflexivity].
Qed.

Lemma truthy_zero : Num.truthy (Num.Fin 0) = false.
Proof. cbn. destruct (Req_dec_T 0 0) as [_ | H]; [reflexivity | now elim H]. Qed.

(** The pixel ratio in use is the one reported when that is a Number other
    than 0 and NaN, and 1 otherwise. *)
Lemma dprOr1_cases (l : Layout) :
  (forall k : R, k <> 0 -> devicePixelRatio l = Some (Num.Fin k) ->
     dprOr1 l = Num.Fin k)
  /\ (devicePixelRatio l = None \/ devicePixelRatio l = Some (Num.Fin 0)
      \/ devicePixelRatio l = Some Num.NaN ->
      dprOr1 l = Num.Fin 1).
Proof.
  unfold dprOr1. split.
  - intros k Hk ->. now rewrite truthy_fin.
  - intros [-> | [-> | ->]]; [reflexivity | now rewrite truthy_zero | reflexivity].
Qed.

(** X7: [initCanvases] assigns to the width and to the height of each
    canvas its logical size times the device pixel ratio (the Number the
    script computes; its conversion to an integer number of pixels is the
    host's) and scales its context by that ratio on both axes, while the
    dimensions kept for drawing are the logical ones whatever the ratio.
    When the ratio is undefined, 0 or NaN it is taken as 1: the script
    then assigns the logical size itself and scales by 1. *)
Theorem canvas_size_assigned_by_pixel_ratio (l : Layout) (w : World)
  (sw sh ww wh : R) :
  specRect l = (Num.Fin sw, Num.Fin sh) ->
  waveRect l = (Num.Fin ww, Num.Fin wh) ->
  worldOf (initCanvases l w)
  = withDims {| specWidth := Num.Fin sw; specHeight := Num.Fin sh;
                waveWidth := Num.Fin ww; waveHeight := Num.Fin wh |} w
  /\ (forall k : R, k <> 0 -> devicePixelRatio l = Some (Num.Fin k) ->
        callsOf (initCanvases l w)
        = [ AssignSize SpecCanvas (Num.Fin (sw * k)) (Num.Fin (sh * k));
            Paint SpecCanvas (Scale (Num.Fin k) (Num.Fin k));
            AssignSize WaveCanvas (Num.Fin (ww * k)) (Num.Fin (wh * k));
            Paint WaveCanvas (Scale (Num.Fin k) (Num.Fin k)) ])
  /\ (devicePixelRatio l = None \/ devicePixelRatio l = Some (Num.Fin 0)
      \/ devicePixelRatio l = Some Num.NaN ->
      callsOf (initCanvases l w)
      = [ AssignSize SpecCanvas (Num.Fin sw) (Num.Fin sh);
          Paint SpecCanvas (Scale (Num.Fin 1) (Num.Fin 1));
          AssignSize WaveCanvas (Num.Fin ww) (Num.Fin wh);
          Paint WaveCanvas (Scale (Num.Fin 1) (Num.Fin 1)) ]).
Proof.
  intros Hs Hw. destruct (dprOr1_cases l) as [Hk H1].
  split; [| split].
  - rewrite initCanvases_world, Hs, Hw. reflexivity.
  - intros k Hk0 Hd. rewrite initCanvases_calls, (Hk k Hk0 Hd), Hs, Hw.
    reflexivity.
  - intro Hd. rewrite initCanvases_calls, (H1 Hd), Hs, Hw.
    cbn [fst snd Num.mul]. now rewrite !Rmult_1_r.
Qed.

Lemma canvas_size_assigned_by_pixel_ratio_witness :
  callsOf (initCanvases Sample.layout (blank Sample.page))
  = [ AssignSize SpecCanvas (Num.Fin (300 * 2)) (Num.Fin (150 * 2));
      Paint SpecCanvas (Scale (Num.Fin 2) (Num.Fin 2));
      AssignSize WaveCanvas (Num.Fin (300 * 2)) (Num.Fin (150 * 2));
      Paint WaveCanvas (Scale (Num.Fin 2) (Num.Fin 2)) ].
Proof.
  assert (H2 : 2 <> 0) by lra.
  destruct (@canvas_size_assigned_by_pixel_ratio Sample.layout
              (blank Sample.page) 300 150 300 150 eq_refl eq_refl)
    as (_ & Hk & _).
  exact (Hk 2 H2 eq_refl).
Defined.

(** X8: a resize while no capture is on prepares both canvases again and
    then clears both over their new logical dimensions, those of this
    resize and not the ones kept before; the controller, the scheduler and
    the document are untouched. *)
Theorem idle_resize_clears_new_area (l : Layout) (w : World) :
  isCapturing (ctl w) = false ->
  callsOf (onResize l w)
  = callsOf (initCanvases l w)
    ++ clearsOf {| specWidth := fst (specRect l);
                   specHeight := snd (specRect l);
                   waveWidth := fst (waveRect l);
                   waveHeight := snd (waveRect l) |}
  /\ ctl (worldOf (onResize l w)) = ctl w
  /\ sched (worldOf (onResize l w)) = sched w
  /\ dom (worldOf (onResize l w)) = dom w.
Proof.
  intro Hc. rewrite onResize_world, initCanvases_calls.
  destruct w as [d dm [s ac h c] sc]. cbn in Hc. subst c.
  repeat split.
Qed.

Lemma idle_resize_clears_new_area_witness :
  callsOf (onResize Sample.wider (world Sample.refused))
  = callsOf (initCanvases Sample.wider (world Sample.refused))
    ++ clearsOf {| specWidth := Num.Fin 400; specHeight := Num.Fin 150;
                   waveWidth := Num.Fin 400; waveHeight := Num.Fin 150 |}.
Proof.
  exact (proj1 (@idle_resize_clears_new_area Sample.wider
                  (world Sample.refused) eq_refl)).
Defined.

(** X9: of two resizes in a row only the second counts: the world and the
    calls of the second are those it would have had without the first;
    in particular resizing twice to the same layout changes nothing more
    than resizing once. *)
Theorem last_resize_wins (l1 l2 : Layout) (w : World) :
  worldOf (onResize l2 (worldOf (onResize l1 w))) = worldOf (onResize l2 w)
  /\ callsOf (onResize l2 (worldOf (onResize l1 w))) = callsOf (onResize l2 w)
  /\ worldOf (onResize l2 (worldOf (onResize l2 w))) = worldOf (onResize l2 w).
Proof.
  rewrite !onResize_world.
  destruct w as [d dm [s ac h c] sc]. destruct c; repeat split.
Qed.

End Surfaces.

(** ** What a refused capture shows *)

Section Refusal.

Lemma catch_errText (e : Thrown) (w : World) :
  errText (dom (worldOf (onCatch e w))) = messageOr e "Capture failed".
Proof. rewrite catch_dom. reflexivity. Qed.

Lemma no_StopTracks_without_stream (e : Thrown) (w : World) (st : StreamId) :
  stream (ctl w) = None -> ~ In (StopTracks st) (callsOf (onCatch e w)).
Proof.
  intros Hs Hin.
  rewrite onCatch_calls, stopCapture_calls, errorShown_onDom in Hin.
  destruct w as [d dm [s ac h c] sc]. cbn in Hs. subst s.
  cbn [onDom ctl dims stream animationId audioContext optCall app] in Hin.
  destruct Hin as [Hin | Hin]; [discriminate |].
  apply in_app_or in Hin. destruct Hin as [Hin | Hin].
  - destruct (truthyHandle h); cbn in Hin; [destruct Hin as [E | []] |];
      [discriminate | contradiction].
  - apply in_app_or in Hin. destruct Hin as [Hin | Hin].
    + destruct ac; cbn in Hin; [destruct Hin as [E | []] |];
        [discriminate | contradiction].
    + cbn in Hin. destruct Hin as [E | [E | []]]; discriminate.
Qed.

(** X10: [captureAudio] resolves exactly when the host reports no
    [lastError] and hands over a stream, and then with that stream.
    Otherwise the start fails and the error box shows: the message of
    [lastError] when it has one (be it empty), "Capture failed" when
    [lastError] has no message, and "Permission denied or no audio
    available" when there is neither [lastError] nor stream.  A stream
    handed over together with a [lastError] is dropped: it is not kept in
    [stream] and its tracks are not stopped. *)
Theorem refusal_text_by_case (w : World) (mk : Thrown + ContextId) :
  stream (ctl w) = None ->
  (forall (le : option (option string)) (s : option StreamId) (st : StreamId),
     captureAudio le s = inr st <-> (le = None /\ s = Some st))
  /\ (forall (m : string) (s : option StreamId),
        errText (dom (worldOf
          (afterCapture (captureAudio (Some (Some m)) s) mk w))) = m)
  /\ (forall s : option StreamId,
        errText (dom (worldOf
          (afterCapture (captureAudio (Some None) s) mk w)))
        = "Capture failed"%string)
  /\ errText (dom (worldOf (afterCapture (captureAudio None None) mk w)))
     = "Permission denied or no audio available"%string
  /\ (forall (m : option string) (st : StreamId),
        stream (ctl (worldOf
          (afterCapture (captureAudio (Some m) (Some st)) mk w))) = None
        /\ ~ In (StopTracks st)
               (callsOf (afterCapture (captureAudio (Some m) (Some st)) mk w))).
Proof.
  intro Hs. split; [| split; [| split; [| split]]].
  - intros le s st. destruct le as [m |], s as [st' |]; cbn [captureAudio];
      split; try discriminate; try (intros [H1 H2]; discriminate).
    + intro E. injection E as ->. now split.
    + intros [_ E]. now injection E as ->.
  - intros m s. cbn [captureAudio].
    destruct (afterCapture_rejected (ThrownObject (Some m)) mk w) as (-> & _).
    now rewrite catch_errText.
  - intro s. cbn [captureAudio].
    destruct (afterCapture_rejected (ThrownObject None) mk w) as (-> & _).
    now rewrite catch_errText.
  - cbn [captureAudio].
    destruct (afterCapture_rejected
                (ThrownObject (Some "Permission denied or no audio available"%string))
                mk w) as (-> & _).
    now rewrite catch_errText.
  - intros m st. cbn [captureAudio].
    destruct (afterCapture_rejected (ThrownObject m) mk w) as (-> & _ & ->).
    split; [apply catch_ctl | now apply no_StopTracks_without_stream].
Qed.

Lemma refusal_text_by_case_witness :
  errText (dom (worldOf
    (afterCapture (captureAudio (Some None) (Some 7)) (inr 3)
       (world Sample.starting))))
  = "Capture failed"%string.
Proof.
  destruct (@refusal_text_by_case (world Sample.starting) (inr 3) eq_refl)
    as (_ & _ & H & _).
  exact (H (Some 7)).
Defined.

End Refusal.

(** ** The spectrum outline *)

Section Outline.
Local Open Scope R_scope.

(** Each turn of the bucket loop draws a curve from the point of the
    previous bucket, as control point, to the midpoint towards the point of
    its own bucket. *)
Lemma specCurve_cons (a : Analyser) (d : Dims) (freq : list Num.t)
  (b : nat) (bs : list nat) (px py : Num.t) :
  specCurve a d freq (b :: bs) px py
  = QuadraticCurveTo px py
      (fst (midpoint (px, py) (bucketPoint a d freq b)))
      (snd (midpoint (px, py) (bucketPoint a d freq b)))
    :: specCurve a d freq bs (fst (bucketPoint a d freq b))
         (snd (bucketPoint a d freq b)).
Proof. reflexivity. Qed.

(** A property of points that holds of the starting point and of the point
    of every bucket, and passes to midpoints, holds all along the curve. *)
Lemma specCurve_points (P : Num.t * Num.t -> Prop) (a : Analyser) (d : Dims)
  (freq : list Num.t) :
  (forall p q, P p -> P q -> P (midpoint p q)) ->
  forall (bs : list nat) (px py : Num.t),
    P (px, py) ->
    (forall b, In b bs -> P (bucketPoint a d freq b)) ->
    Forall P (flat_map pathPoints (specCurve a d freq bs px py)).
Proof.
  intros Hmid. induction bs as [| b bs IH]; intros px py H0 Hb.
  - constructor.
  - rewrite specCurve_cons. cbn [flat_map pathPoints app].
    assert (Hp : P (bucketPoint a d freq b)) by (apply Hb; now left).
    constructor; [exact H0 |].
    constructor.
    { rewrite <- surjective_pairing. now apply Hmid. }
    apply IH.
    + now rewrite <- surjective_pairing.
    + intros b' Hin. apply Hb. now right.
Qed.

Lemma spectrum_points (P : Num.t * Num.t -> Prop) (a : Analyser) (d : Dims)
  (freq : list Num.t) :
  (forall p q, P p -> P q -> P (midpoint p q)) ->
  P (Num.Fin 0, mapY a (specHeight d) (bucketAvg freq 0)) ->
  (forall b, In b (laterBuckets (frequencyBinCount a)) ->
     P (bucketPoint a d freq b)) ->
  P (specWidth d, specHeight d) ->
  P (Num.Fin 0, specHeight d) ->
  Forall P (flat_map pathPoints (spectrumCmds a d freq)).
Proof.
  intros Hmid H0 Hb Hw Hz. unfold spectrumCmds.
  rewrite !flat_map_app. apply Forall_app. split.
  - cbn. constructor; [exact H0 | constructor].
  - apply Forall_app. split.
    + now apply specCurve_points.
    + cbn. repeat constructor; assumption.
Qed.

Lemma of_nat_8 : Num.of_nat BINS_PER_BUCKET = Num.Fin 8.
Proof. reflexivity. Qed.

Lemma bucketAvg_silent (freq : list Num.t) (start : nat) :
  (forall j, (j < BINS_PER_BUCKET)%nat ->
     at_index freq (start + j) = Num.NInf) ->
  bucketAvg freq start = Num.NInf.
Proof.
  intro H. unfold bucketAvg, bucketSum. rewrite of_nat_8.
  unfold BINS_PER_BUCKET in *. cbn [seq fold_left].
  rewrite !H by lia. cbn [Num.add Num.div].
  destruct (Rlt_dec 8 0); [lra | reflexivity].
Qed.

Lemma mapY_floor (h : R) : mapY configured (Num.Fin h) Num.NInf = Num.Fin h.
Proof.
  rewrite (@mapY_of_norm configured h Num.NInf 0).
  - f_equal. lra.
  - apply (@normDb_ninf configured (-90) (-10)); [reflexivity | reflexivity | lra].
Qed.

Lemma midpoint_level (h : R) (p q : Num.t * Num.t) :
  snd p = Num.Fin h -> snd q = Num.Fin h -> snd (midpoint p q) = Num.Fin h.
Proof.
  intros Hp Hq. unfold midpoint. cbn [snd]. rewrite Hp, Hq.
  cbn [Num.add]. rewrite div_fin by lra. f_equal. lra.
Qed.

Lemma In_laterBuckets_configured (b : nat) :
  In b (laterBuckets (frequencyBinCount configured)) -> (1 <= b < 128)%nat.
Proof. rewrite laterBuckets_configured, in_seq. lia. Qed.

(** X11: when the analyser reports no energy at all (minus infinity in
    every bin), the whole outline of the spectrum lies on the bottom edge
    of the surface: the start of the path, every control point and every
    end point of the curves and the two closing corners are at height
    [specHeight], so the filled shape has no area. *)
Theorem silence_draws_the_floor (d : Dims) (freq : list Num.t) (h : R) :
  specHeight d = Num.Fin h ->
  (forall i, (i < frequencyBinCount configured)%nat ->
     at_index freq i = Num.NInf) ->
  Forall (fun p => snd p = Num.Fin h)
    (flat_map pathPoints (spectrumCmds configured d freq)).
Proof.
  intros Hh Hsil.
  assert (Havg : forall b, (b < 128)%nat ->
            bucketAvg freq (b * BINS_PER_BUCKET) = Num.NInf).
  { intros b Hb. apply bucketAvg_silent. intros j Hj. apply Hsil.
    unfold BINS_PER_BUCKET in *.
    change (frequencyBinCount configured) with 1024%nat. lia. }
  apply spectrum_points.
  - intros p q. apply midpoint_level.
  - cbn [snd]. rewrite Hh. change 0%nat with (0 * BINS_PER_BUCKET)%nat.
    rewrite Havg by lia. apply mapY_floor.
  - intros b Hb. apply In_laterBuckets_configured in Hb.
    unfold bucketPoint. cbn [snd]. rewrite Hh, Havg by lia. apply mapY_floor.
  - exact Hh.
  - exact Hh.
Qed.

End Outline.

Section OutlineInside.
Local Open Scope R_scope.

Lemma silence_is_silent (i : nat) :
  (i < frequencyBinCount configured)%nat ->
  at_index (freqSnapshot Sample.silence) i = Num.NInf.
Proof.
  intro Hi. unfold at_index, Sample.silence. cbn [freqSnapshot].
  apply nth_repeat_lt. exact Hi.
Qed.

Lemma silence_draws_the_floor_witness :
  Forall (fun p => snd p = Num.Fin 150)
    (flat_map pathPoints
       (spectrumCmds configured (dims (world Sample.capturing))
          (freqSnapshot Sample.silence))).
Proof.
  exact (@silence_draws_the_floor (dims (world Sample.capturing))
           (freqSnapshot Sample.silence) 150 eq_refl silence_is_silent).
Defined.

Lemma Magnitude_add (x y : Num.t) :
  Magnitude x -> Magnitude y -> Magnitude (Num.add x y).
Proof. destruct x, y; cbn; tauto. Qed.

Lemma bucketAvg_magnitude (freq : list Num.t) (start : nat) :
  (forall j, (j < BINS_PER_BUCKET)%nat -> Magnitude (at_index freq (start + j))) ->
  Magnitude (bucketAvg freq start).
Proof.
  intro H. unfold bucketAvg. rewrite of_nat_8.
  assert (Hs : Magnitude (bucketSum freq start)).
  { unfold bucketSum, BINS_PER_BUCKET in *. cbn [seq fold_left].
    repeat (apply Magnitude_add; [| apply H; lia]). exact I. }
  destruct (bucketSum freq start) as [r | | |]; try contradiction.
  - rewrite div_fin by lra. exact I.
  - cbn. destruct (Rlt_dec 8 0); [lra | exact I].
Qed.

(** The height [mapY] gives to a magnitude is a real number of [0, h]. *)
Lemma mapY_magnitude (h : R) (x : Num.t) :
  0 <= h -> Magnitude x ->
  exists y, mapY configured (Num.Fin h) x = Num.Fin y /\ 0 <= y <= h.
Proof.
  intros Hh Hx.
  assert (Hn : Num.is_nan x = false) by (destruct x; try reflexivity; contradiction).
  destruct (@normDb_unit configured (-90) (-10) eq_refl eq_refl ltac:(lra) x Hn)
    as (n & En & Hb).
  exists (h - n * h). split; [now apply mapY_of_norm | nra].
Qed.

(** The abscissa [logX] gives to a bin of the buffer is a real number of
    [0, W]. *)
Lemma logX_within (N : nat) (W : R) (bin : nat) :
  (2 <= N)%nat -> 0 <= W -> (bin < N)%nat ->
  exists x, logX N (Num.Fin W) bin = Num.Fin x /\ 0 <= x <= W.
Proof.
  intros HN HW Hb. rewrite logX_fin by assumption. eexists. split; [reflexivity |].
  pose proof (logWidth_pos HN) as HB. pose proof ln10_pos as H10.
  pose proof (of_nat_nonneg bin) as Hbin.
  assert (H1 : 0 <= ln (IZR (Z.of_nat bin) + 1)).
  { rewrite <- ln_1. apply ln_le_mono; lra. }
  assert (H2 : ln (IZR (Z.of_nat bin) + 1) <= ln (IZR (Z.of_nat N))).
  { apply ln_le_mono; [lra |].
    rewrite <- plus_IZR. apply IZR_le. lia. }
  set (A := ln (IZR (Z.of_nat bin) + 1) / ln 10).
  set (B := ln (IZR (Z.of_nat N)) / ln 10) in *.
  assert (HA : 0 <= A <= B).
  { unfold A, B. split.
    - apply Rmult_le_pos; [exact H1 | left; now apply Rinv_0_lt_compat].
    - apply Rmult_le_compat_r; [left; now apply Rinv_0_lt_compat | exact H2]. }
  assert (Hq : 0 <= A / B <= 1).
  { split.
    - apply Rmult_le_pos; [tauto | left; now apply Rinv_0_lt_compat].
    - apply Rmult_le_reg_r with B; [exact HB |].
      unfold Rdiv. rewrite Rmult_assoc, Rinv_l by lra. lra. }
  nra.
Qed.

Lemma midpoint_within (W H : R) (p q : Num.t * Num.t) :
  (exists x y, p = (Num.Fin x, Num.Fin y) /\ 0 <= x <= W /\ 0 <= y <= H) ->
  (exists x y, q = (Num.Fin x, Num.Fin y) /\ 0 <= x <= W /\ 0 <= y <= H) ->
  exists x y, midpoint p q = (Num.Fin x, Num.Fin y)
              /\ 0 <= x <= W /\ 0 <= y <= H.
Proof.
  intros (x1 & y1 & -> & Hx1 & Hy1) (x2 & y2 & -> & Hx2 & Hy2).
  unfold midpoint. cbn [fst snd Num.add]. rewrite !div_fin by lra.
  do 2 eexists. split; [reflexivity |]. lra.
Qed.

(** X12: whatever magnitudes the analyser reports (real numbers of
    decibels, or minus infinity), on a surface of width [W >= 0] and height
    [H >= 0] every point of the spectrum outline -- the start of the path,
    the control point and the end point of each curve, the two closing
    corners -- lies within the surface. *)
Theorem spectrum_stays_inside (d : Dims) (freq : list Num.t) (W H : R) :
  specWidth d = Num.Fin W -> specHeight d = Num.Fin H ->
  0 <= W -> 0 <= H ->
  (forall i, (i < frequencyBinCount configured)%nat ->
     Magnitude (at_index freq i)) ->
  Forall (fun p => Inside W H (fst p) (snd p))
    (flat_map pathPoints (spectrumCmds configured d freq)).
Proof.
  intros HdW HdH HW HH Hmag.
  assert (Havg : forall b, (b < 128)%nat ->
            Magnitude (bucketAvg freq (b * BINS_PER_BUCKET))).
  { intros b Hb. apply bucketAvg_magnitude. intros j Hj. apply Hmag.
    unfold BINS_PER_BUCKET in *.
    change (frequencyBinCount configured) with 1024%nat. lia. }
  apply Forall_impl
    with (P := fun p => exists x y, p = (Num.Fin x, Num.Fin y)
                                    /\ 0 <= x <= W /\ 0 <= y <= H).
  { intros p (x & y & -> & Hx & Hy). unfold Inside. cbn. lra. }
  apply spectrum_points.
  - intros p q. apply midpoint_within.
  - rewrite HdH. change 0%nat with (0 * BINS_PER_BUCKET)%nat.
    destruct (@mapY_magnitude H _ HH (Havg 0%nat ltac:(lia))) as (y & -> & Hy).
    exists 0, y. repeat split; lra.
  - intros b Hb. apply In_laterBuckets_configured in Hb.
    unfold bucketPoint. rewrite HdW, HdH.
    destruct (@mapY_magnitude H _ HH (Havg b ltac:(lia))) as (y & -> & Hy).
    destruct (@logX_within (frequencyBinCount configured) W
                (b * BINS_PER_BUCKET) ltac:(cbv; lia) HW
                ltac:(unfold BINS_PER_BUCKET;
                      change (frequencyBinCount configured) with 1024%nat; lia))
      as (x & -> & Hx).
    exists x, y. repeat split; lra.
  - rewrite HdW, HdH. exists W, H. repeat split; lra.
  - rewrite HdH. exists 0, H. repeat split; lra.
Qed.

Lemma silence_is_magnitude (i : nat) :
  (i < frequencyBinCount configured)%nat ->
  Magnitude (at_index (freqSnapshot Sample.silence) i).
Proof. intro Hi. now rewrite silence_is_silent. Qed.

Lemma spectrum_stays_inside_witness :
  Forall (fun p => Inside 300 150 (fst p) (snd p))
    (flat_map pathPoints
       (spectrumCmds configured (dims (world Sample.capturing))
          (freqSnapshot Sample.silence))).
Proof.
  assert (HW : 0 <= 300) by lra.
  assert (HH : 0 <= 150) by lra.
  exact (@spectrum_stays_inside (dims (world Sample.capturing))
           (freqSnapshot Sample.silence) 300 150 eq_refl eq_refl HW HH
           silence_is_magnitude).
Defined.

End OutlineInside.

Section Smoothing.

(** Turn [j] of the bucket loop started at bucket [k] from [(px, py)]. *)
Lemma specCurve_turn (a : Analyser) (d : Dims) (freq : list Num.t) :
  forall (n k : nat) (px py : Num.t) (j : nat), j < n ->
    nth_error (specCurve a d freq (seq k n) px py) j
    = Some (let p := match j with
                     | O => (px, py)
                     | S j' => bucketPoint a d freq (k + j')
                     end in
            let m := midpoint p (bucketPoint a d freq (k + j)) in
            QuadraticCurveTo (fst p) (snd p) (fst m) (snd m)).
Proof.
  induction n as [| n IH]; intros k px py j Hj; [lia |].
  cbn [seq]. rewrite specCurve_cons.
  destruct j as [| j]; cbn [nth_error].
  - now rewrite Nat.add_0_r.
  - rewrite IH by lia. cbv zeta.
    replace (S k + j) with (k + S j) by lia.
    destruct j as [| j].
    + now rewrite Nat.add_0_r.
    + replace (S k + j) with (k + S j) by lia. reflexivity.
Qed.

(** X13: the spectrum is smoothed through midpoints.  The curve drawn for
    bucket [b] (from 1 to 127) has for control point the point of bucket
    [b - 1] -- for [b = 1], the start of the path, at abscissa 0 and the
    height of bucket 0 -- and ends halfway between that point and the
    point of bucket [b]; so each curve starts where the previous one
    ended, and the point of the last bucket is approached, not reached. *)
Theorem curves_run_through_midpoints (d : Dims) (freq : list Num.t) (b : nat) :
  1 <= b < 128 ->
  nth_error (spectrumCmds configured d freq) (2 + b)
  = Some (let p := match b with
                   | 1 => (Num.Fin 0,
                           mapY configured (specHeight d) (bucketAvg freq 0))
                   | _ => bucketPoint configured d freq (b - 1)
                   end in
          let m := midpoint p (bucketPoint configured d freq b) in
          QuadraticCurveTo (fst p) (snd p) (fst m) (snd m)).
Proof.
  intros [Hb1 Hb2]. unfold spectrumCmds. rewrite laterBuckets_configured.
  destruct b as [| j]; [lia |].
  change (2 + S j) with (3 + j). cbn [app nth_error Nat.add].
  rewrite nth_error_app1 by (rewrite specCurve_length, length_seq; lia).
  rewrite specCurve_turn by lia. cbv zeta.
  destruct j as [| j]; [reflexivity |].
  replace (S (S j) - 1) with (1 + j) by lia. reflexivity.
Qed.

Lemma curves_run_through_midpoints_witness :
  nth_error
    (spectrumCmds configured (dims (world Sample.capturing))
       (freqSnapshot Sample.silence)) (2 + 5)
  = Some (let p := bucketPoint configured (dims (world Sample.capturing))
                     (freqSnapshot Sample.silence) (5 - 1) in
          let m := midpoint p
                     (bucketPoint configured (dims (world Sample.capturing))
                        (freqSnapshot Sample.silence) 5) in
          QuadraticCurveTo (fst p) (snd p) (fst m) (snd m)).
Proof.
  assert (H : 1 <= 5 < 128) by lia.
  exact (@curves_run_through_midpoints (dims (world Sample.capturing))
           (freqSnapshot Sample.silence) 5 H).
Defined.

End Smoothing.

(** ** The waveform trace *)

Section Trace.
Local Open Scope R_scope.

(** X14: with the configured buffer of 2048 samples, on a surface at least
    one pixel wide and of height [H >= 0], a sample of amplitude within
    [-1, 1] is plotted within the surface and strictly left of its right
    edge; the first sample is plotted on the left edge. *)
Theorem waveform_stays_inside (d : Dims) (time : list Num.t)
  (W H s : R) (i : nat) :
  waveWidth d = Num.Fin W -> waveHeight d = Num.Fin H ->
  1 <= W -> 0 <= H ->
  (i < fftSize configured)%nat -> at_index time i = Num.Fin s ->
  -1 <= s <= 1 ->
  exists x y,
    nth_error (waveformCmds configured d time) (2 + i)
    = Some (pen i (Num.Fin x) (Num.Fin y))
    /\ 0 <= x < W /\ 0 <= y <= H
    /\ (i = 0%nat -> x = 0).
Proof.
  intros HdW HdH HW1 HH Hi Hs Hamp.
  assert (HW : 0 < W) by lra.
  pose proof (midOf_fin d HdH) as Hmid.
  assert (Hn : 0 < IZR (Z.of_nat (fftSize configured)))
    by (apply IZR_lt; apply (Nat2Z.inj_lt 0); lia).
  assert (Hin : IZR (Z.of_nat i) + 1 <= IZR (Z.of_nat (fftSize configured))).
  { rewrite <- plus_IZR. apply IZR_le. lia. }
  pose proof (of_nat_nonneg i) as Hi0.
  set (n := IZR (Z.of_nat (fftSize configured))) in *.
  exists (0 + IZR (Z.of_nat i) * (W / n)), (H / 2 - s * (H / 2)).
  split.
  - unfold waveformCmds. cbn [app nth_error Nat.add].
    rewrite nth_error_app1 by (rewrite waveTrace_length, length_seq; exact Hi).
    unfold sliceWidthOf. rewrite HdW. unfold Num.of_nat. fold n.
    rewrite div_fin by lra.
    rewrite waveTrace_nth by exact Hi.
    cbn [Nat.add]. now rewrite Hs, Hmid, waveY_fin.
  - assert (Hq : 0 < W / n) by (apply Rdiv_lt_0_compat; lra).
    assert (Hwn : W / n * n = W) by (field; lra).
    split; [| split].
    + split; [nra | nra].
    + nra.
    + intros ->. change (Z.of_nat 0) with 0%Z. lra.
Qed.

Lemma waveform_stays_inside_witness :
  exists x y,
    nth_error
      (waveformCmds configured
         {| specWidth := Num.Fin 300; specHeight := Num.Fin 150;
            waveWidth := Num.Fin 300; waveHeight := Num.Fin 150 |}
         [Num.Fin 0; Num.Fin (1 / 2)]) (2 + 1)
    = Some (pen 1 (Num.Fin x) (Num.Fin y))
    /\ 0 <= x < 300 /\ 0 <= y <= 150
    /\ (1%nat = 0%nat -> x = 0).
Proof.
  assert (HW : 1 <= 300) by lra.
  assert (HH : 0 <= 150) by lra.
  assert (Hamp : -1 <= 1 / 2 <= 1) by lra.
  assert (Hi : (1 < fftSize configured)%nat)
    by (apply Nat.ltb_lt; reflexivity).
  exact (@waveform_stays_inside
           {| specWidth := Num.Fin 300; specHeight := Num.Fin 150;
              waveWidth := Num.Fin 300; waveHeight := Num.Fin 150 |}
           [Num.Fin 0; Num.Fin (1 / 2)] 300 150 (1 / 2) 1
           eq_refl eq_refl HW HH Hi eq_refl Hamp).
Defined.

(** X15: the waveform is not clamped.  On a surface of height [H > 0] a
    sample above 1 is plotted above the top edge (at a negative height)
    and a sample below -1 below the bottom edge (beyond [H]); the samples
    1 and -1 are plotted on the top and on the bottom edge. *)
Theorem waveform_is_not_clamped (d : Dims) (H : R) :
  waveHeight d = Num.Fin H -> 0 < H ->
  (forall s : R, 1 < s ->
     exists y, waveY (midOf d) (Num.Fin s) = Num.Fin y /\ y < 0)
  /\ (forall s : R, s < -1 ->
        exists y, waveY (midOf d) (Num.Fin s) = Num.Fin y /\ H < y)
  /\ waveY (midOf d) (Num.Fin 1) = Num.Fin 0
  /\ waveY (midOf d) (Num.Fin (-1)) = Num.Fin H.
Proof.
  intros HdH HH. rewrite (midOf_fin d HdH).
  split; [| split; [| split]].
  - intros s Hs. rewrite waveY_fin. eexists. split; [reflexivity | nra].
  - intros s Hs. rewrite waveY_fin. eexists. split; [reflexivity | nra].
  - rewrite waveY_fin. f_equal. lra.
  - rewrite waveY_fin. f_equal. lra.
Qed.

Lemma waveform_is_not_clamped_witness :
  exists y,
    waveY (midOf (dims (world Sample.capturing))) (Num.Fin 2) = Num.Fin y
    /\ y < 0.
Proof.
  assert (HH : 0 < 150) by lra.
  assert (H2 : 1 < 2) by lra.
  exact (proj1 (@waveform_is_not_clamped (dims (world Sample.capturing)) 150
                  eq_refl HH) 2 H2).
Defined.

End Trace.

(** ** When audio capture is requested *)

Section Requests.

Lemma no_request_in_stop (w : World) : ~ In CaptureRequest (callsOf (stopCapture w)).
Proof.
  rewrite stopCapture_calls. intro Hin.
  repeat (apply in_app_or in Hin; destruct Hin as [Hin | Hin]).
  - destruct (truthyHandle (animationId (ctl w))); cbn in Hin;
      [destruct Hin as [E | []]; discriminate | contradiction].
  - destruct (stream (ctl w)); cbn in Hin;
      [destruct Hin as [E | []]; discriminate | contradiction].
  - destruct (audioContext (ctl w)); cbn in Hin;
      [destruct Hin as [E | []]; discriminate | contradiction].
  - cbn in Hin. destruct Hin as [E | [E | []]]; discriminate.
Qed.

Lemma no_request_in_catch (e : Thrown) (w : World) :
  ~ In CaptureRequest (callsOf (onCatch e w)).
Proof.
  rewrite onCatch_calls. intros [E | Hin]; [discriminate |].
  now apply no_request_in_stop in Hin.
Qed.

Lemma no_request_in_draw (a : Analyser) (fd : FrameData) (w : World) :
  ~ In CaptureRequest (callsOf (draw a fd w)).
Proof.
  rewrite draw_calls. intros [E | Hin]; [discriminate |].
  repeat (apply in_app_or in Hin; destruct Hin as [Hin | Hin]).
  - apply in_map_iff in Hin. destruct Hin as (c & E & _). discriminate.
  - apply in_map_iff in Hin. destruct Hin as (c & E & _). discriminate.
  - destruct Hin as [E | []]. discriminate.
Qed.

Lemma no_request_in_resize (l : Layout) (w : World) :
  ~ In CaptureRequest (callsOf (onResize l w)).
Proof.
  destruct w as [d dm [s ac h c] sc]. destruct c; cbn; intuition discriminate.
Qed.

(** X16: audio capture is requested on a click and on nothing else.
    Whatever the page, the calls an event adds contain a capture request
    only if the event is a click that finds [isCapturing] unset, and such a
    click adds that one call and no other; closing the popup, resizing, a
    frame, and the answers to an earlier request or resume never request a
    capture. *)
Theorem capture_requested_only_on_click (sy sy' : Sys) (ev : Event) :
  step sy ev = Some sy' ->
  exists added,
    calls sy' = calls sy ++ added
    /\ (In CaptureRequest added ->
        ev = Click /\ isCapturing (ctl (world sy)) = false)
    /\ (ev = Click -> isCapturing (ctl (world sy)) = false ->
        added = [CaptureRequest]).
Proof.
  intro Hs. unfold step in Hs.
  destruct (alive sy); cbn [negb] in Hs; [| discriminate].
  destruct ev as [| | l | k le s mk | k r g fd | h fd | e].
  - destruct (toggleDisabled (dom (world sy))); [discriminate |].
    injection Hs as <-. eexists. split; [reflexivity |].
    destruct (isCapturing (ctl (world sy))) eqn:Hc.
    + destruct (onClick_capturing _ Hc) as (_ & _ & ->).
      split; [| discriminate].
      intro Hin. now apply no_request_in_stop in Hin.
    + unfold onClick. rewrite gets_bind, Hc, (startCapture_fresh _ Hc).
      cbn [callsOf snd]. split; auto.
  - injection Hs as <-. eexists. split; [reflexivity |].
    split; [| discriminate].
    intro Hin. now apply no_request_in_stop in Hin.
  - injection Hs as <-. eexists. split; [reflexivity |].
    split; [| discriminate].
    intro Hin. now apply no_request_in_resize in Hin.
  - destruct (nth_error (inflight sy) k) as [[|] |]; try discriminate.
    injection Hs as <-. eexists. split; [reflexivity |].
    split; [| discriminate].
    intro Hin. exfalso. destruct (captureAudio le s) as [e | st].
    + destruct (afterCapture_rejected e mk (world sy)) as (_ & _ & E).
      rewrite E in Hin. now apply no_request_in_catch in Hin.
    + destruct mk as [e | ac].
      * destruct (afterCapture_no_context st e (world sy)) as (_ & _ & E).
        rewrite E in Hin. now apply no_request_in_catch in Hin.
      * rewrite afterCapture_granted in Hin. cbn in Hin.
        destruct Hin as [E | [E | []]]; discriminate.
  - destruct (nth_error (inflight sy) k) as [[|] |]; try discriminate.
    injection Hs as <-. eexists. split; [reflexivity |].
    split; [| discriminate].
    intro Hin. exfalso. destruct r as [e |].
    { now apply no_request_in_catch in Hin. }
    destruct (audioContext (ctl (world sy))) as [ac |] eqn:Hac.
    + destruct g as [e |].
      * rewrite (afterResume_graph_fault e fd _ Hac) in Hin.
        now apply no_request_in_catch in Hin.
      * destruct (afterResume_started fd _ Hac) as [_ E].
        rewrite E in Hin. destruct Hin as [E' | Hin]; [discriminate |].
        now apply no_request_in_draw in Hin.
    + rewrite (afterResume_no_context g fd _ Hac) in Hin.
      now apply no_request_in_catch in Hin.
  - destruct (memHandle h (pendingFrames (sched (world sy)))); [| discriminate].
    injection Hs as <-. eexists. split; [reflexivity |].
    split; [| discriminate].
    intro Hin. exfalso. rewrite callsOf_bind in Hin.
    cbn [takeFrame modify callsOf worldOf valueOf fst snd app] in Hin.
    now apply no_request_in_draw in Hin.
  - injection Hs as <-. eexists. split; [reflexivity |].
    split; [| discriminate]. intros [].
Qed.

Lemma capture_requested_only_on_click_witness :
  exists added,
    calls (Sample.orBoot (step Sample.refused Click))
    = calls Sample.refused ++ added
    /\ (In CaptureRequest added ->
        Click = Click /\ isCapturing (ctl (world Sample.refused)) = false)
    /\ (Click = Click -> isCapturing (ctl (world Sample.refused)) = false ->
        added = [CaptureRequest]).
Proof.
  exact (@capture_requested_only_on_click Sample.refused
           (Sample.orBoot (step Sample.refused Click)) Click eq_refl).
Defined.

End Requests.

(** ** Starting while a start or a capture is under way *)

Section ReentryClaim.

Lemma quiet_stop (w : World) (e : Effect) :
  In e (callsOf (stopCapture w)) -> startsSession e = false.
Proof.
  rewrite stopCapture_calls. intro Hin.
  repeat (apply in_app_or in Hin; destruct Hin as [Hin | Hin]).
  - destruct (truthyHandle (animationId (ctl w))); cbn in Hin;
      [destruct Hin as [<- | []]; reflexivity | contradiction].
  - destruct (stream (ctl w)); cbn in Hin;
      [destruct Hin as [<- | []]; reflexivity | contradiction].
  - destruct (audioContext (ctl w)); cbn in Hin;
      [destruct Hin as [<- | []]; reflexivity | contradiction].
  - cbn in Hin. destruct Hin as [<- | [<- | []]]; reflexivity.
Qed.

Lemma quiet_draw (a : Analyser) (fd : FrameData) (w : World) (e : Effect) :
  In e (callsOf (draw a fd w)) -> startsSession e = false.
Proof.
  rewrite draw_calls. intros [<- | Hin]; [reflexivity |].
  repeat (apply in_app_or in Hin; destruct Hin as [Hin | Hin]).
  - apply in_map_iff in Hin. destruct Hin as (c & <- & _). reflexivity.
  - apply in_map_iff in Hin. destruct Hin as (c & <- & _). reflexivity.
  - destruct Hin as [<- | []]. reflexivity.
Qed.

Lemma quiet_resize (l : Layout) (w : World) (e : Effect) :
  In e (callsOf (onResize l w)) -> startsSession e = false.
Proof.
  destruct w as [d dm [s ac h c] sc]. destruct c; cbn; intro Hin;
    repeat (destruct Hin as [<- | Hin]; [reflexivity |]); contradiction.
Qed.

Lemma step_keeps_inflight_or_open (sy sy' : Sys) (ev : Event) :
  step sy ev = Some sy' -> alive sy' = true \/ inflight sy' = inflight sy.
Proof.
  intro Hs. unfold step in Hs.
  destruct (alive sy); cbn [negb] in Hs; [| discriminate].
  destruct ev as [| | l | k le s mk | k r g fd | h fd | e];
    repeat match type of Hs with
           | context [if ?b then _ else _] => destruct b
           | context [match nth_error ?x ?k with _ => _ end] =>
               destruct (nth_error x k) as [[|] |]
           end;
    try discriminate; injection Hs as <-; cbn; auto.
Qed.

(** C1: on every page the host can reach on which a start is under way (an
    invocation of [startCapture] is suspended) or a capture is on, a new
    start is a no-op.  While the capture is on, [startCapture] returns at
    once: the world is unchanged and no call is made.  While a start is
    under way the button is disabled, so that the click listener, the only
    caller of [startCapture], is not run.  And whatever event the host
    delivers to such a page, no capture request is among the calls it
    adds; from a page that is capturing, no audio context and no graph is
    built either; and afterwards still at most one invocation is suspended
    and at most one frame is due. *)
Theorem start_reentry_is_noop (d0 : Dom) (l : Layout) (sy : Sys) :
  Reachable d0 l sy ->
  inflight sy <> [] \/ isCapturing (ctl (world sy)) = true ->
  (isCapturing (ctl (world sy)) = true ->
   startCapture (world sy) = (None, world sy, []))
  /\ (inflight sy <> [] -> step sy Click = None)
  /\ (forall (ev : Event) (sy' : Sys),
        step sy ev = Some sy' ->
        exists added,
          calls sy' = calls sy ++ added
          /\ ~ In CaptureRequest added
          /\ (isCapturing (ctl (world sy)) = true ->
              forall e, In e added -> startsSession e = false)
          /\ List.length (inflight sy') <= 1
          /\ List.length (pendingFrames (sched (world sy'))) <= 1).
Proof.
  intros HR Hbusy. pose proof (Reachable_Inv HR) as HI.
  pose proof HI as [Ht Hf].
  split; [apply startCapture_busy |].
  split.
  { intro Hne. unfold step. destruct (alive sy) eqn:Ha; [| reflexivity].
    destruct (Hf eq_refl) as [E | (_ & Hd & _)]; [contradiction |].
    cbn [negb]. now rewrite Hd. }
  intros ev sy' Hs.
  assert (Hlen : List.length (inflight sy') <= 1
                 /\ List.length (pendingFrames (sched (world sy'))) <= 1).
  { pose proof (@step_inv _ _ _ HI Hs) as [(_ & _ & Hp') Hf'].
    assert (Ha : alive sy = true).
    { unfold step in Hs. destruct (alive sy); [reflexivity | discriminate]. }
    split.
    - destruct (@step_keeps_inflight_or_open _ _ _ Hs) as [Ha' | E].
      + destruct (Hf' Ha') as [-> | ((c & ->) & _)]; cbn; lia.
      + rewrite E. destruct (Hf Ha) as [-> | ((c & ->) & _)]; cbn; lia.
    - destruct Hp' as [-> | (h & -> & _)]; cbn; lia. }
  assert (Hquiet : forall added,
            (forall e, In e added -> startsSession e = false) ->
            ~ In CaptureRequest added
            /\ (isCapturing (ctl (world sy)) = true ->
                forall e, In e added -> startsSession e = false)).
  { intros added H. split; [| auto].
    intro Hin. apply H in Hin. discriminate. }
  assert (Hstart : forall added,
            isCapturing (ctl (world sy)) = false ->
            ~ In CaptureRequest added ->
            ~ In CaptureRequest added
            /\ (isCapturing (ctl (world sy)) = true ->
                forall e, In e added -> startsSession e = false)).
  { intros added Hc H. split; [exact H | congruence]. }
  unfold step in Hs. destruct (alive sy) eqn:Ha; cbn [negb] in Hs;
    [| discriminate].
  specialize (Hf eq_refl).
  destruct ev as [| | l' | k le s mk | k r g fd | h fd | e].
  - (* Click *)
    destruct (toggleDisabled (dom (world sy))) eqn:Ed; [discriminate |].
    injection Hs as <-.
    assert (Hc : isCapturing (ctl (world sy)) = true).
    { destruct Hf as [E | (_ & Hd & _)]; [| congruence].
      destruct Hbusy as [Hne | Hc]; [contradiction | exact Hc]. }
    exists (callsOf (stopCapture (world sy))).
    destruct (onClick_capturing _ Hc) as (_ & _ & Hk).
    split; [unfold after; cbn [calls]; now rewrite Hk |].
    split; [apply Hquiet | split; [apply Hquiet | exact Hlen]];
      intros e; apply quiet_stop.
  - (* Unload *)
    injection Hs as <-. exists (callsOf (stopCapture (world sy))).
    split; [reflexivity |].
    split; [apply Hquiet | split; [apply Hquiet | exact Hlen]];
      intros e; apply quiet_stop.
  - (* Resize *)
    injection Hs as <-. exists (callsOf (onResize l' (world sy))).
    split; [reflexivity |].
    split; [apply Hquiet | split; [apply Hquiet | exact Hlen]];
      intros e; apply quiet_resize.
  - (* CaptureSettled *)
    destruct (nth_error (inflight sy) k) as [[|] |] eqn:Hk; try discriminate.
    injection Hs as <-.
    destruct (inflight_single _ HI Ha Hk) as (_ & _ & _ & Hc & _).
    eexists. split; [reflexivity |].
    assert (Hno : ~ In CaptureRequest
                      (callsOf (afterCapture (captureAudio le s) mk (world sy)))).
    { intro Hin. destruct (captureAudio le s) as [e | st].
      - destruct (afterCapture_rejected e mk (world sy)) as (_ & _ & E).
        rewrite E in Hin. now apply no_request_in_catch in Hin.
      - destruct mk as [e | ac].
        + destruct (afterCapture_no_context st e (world sy)) as (_ & _ & E).
          rewrite E in Hin. now apply no_request_in_catch in Hin.
        + rewrite afterCapture_granted in Hin. cbn in Hin.
          destruct Hin as [E | [E | []]]; discriminate. }
    destruct (Hstart _ Hc Hno) as [H1 H2]. auto.
  - (* ResumeSettled *)
    destruct (nth_error (inflight sy) k) as [[|] |] eqn:Hk; try discriminate.
    injection Hs as <-.
    destruct (inflight_single _ HI Ha Hk) as (_ & _ & _ & Hc & _).
    eexists. split; [reflexivity |].
    assert (Hno : ~ In CaptureRequest
                      (callsOf (afterResume r g fd (world sy)))).
    { intro Hin. destruct r as [e |].
      { now apply no_request_in_catch in Hin. }
      destruct (audioContext (ctl (world sy))) as [ac |] eqn:Hac.
      - destruct g as [e |].
        + rewrite (afterResume_graph_fault e fd _ Hac) in Hin.
          now apply no_request_in_catch in Hin.
        + destruct (afterResume_started fd _ Hac) as [_ E].
          rewrite E in Hin. destruct Hin as [E' | Hin]; [discriminate |].
          now apply no_request_in_draw in Hin.
      - rewrite (afterResume_no_context g fd _ Hac) in Hin.
        now apply no_request_in_catch in Hin. }
    destruct (Hstart _ Hc Hno) as [H1 H2]. auto.
  - (* Frame *)
    destruct (memHandle h (pendingFrames (sched (world sy)))); [| discriminate].
    injection Hs as <-. eexists. split; [reflexivity |].
    assert (Hq : forall e,
               In e (callsOf ((takeFrame h ;; draw configured fd) (world sy))) ->
               startsSession e = false).
    { intros e Hin. rewrite callsOf_bind in Hin.
      cbn [takeFrame modify callsOf worldOf valueOf fst snd app] in Hin.
      now apply quiet_draw in Hin. }
    split; [now apply Hquiet | split; [now apply Hquiet | exact Hlen]].
  - (* CloseRejected *)
    injection Hs as <-. exists []. split; [reflexivity |].
    split; [intros [] | split; [intros _ e' [] | exact Hlen]].
Qed.

Lemma start_reentry_is_noop_witness :
  startCapture (world Sample.capturing) = (None, world Sample.capturing, [])
  /\ step Sample.starting Click = None.
Proof.
  split.
  - exact (proj1 (start_reentry_is_noop Sample_capturing_reachable
                    (or_intror eq_refl)) eq_refl).
  - assert (Hne : inflight Sample.starting <> []) by discriminate.
    exact (proj1 (proj2 (start_reentry_is_noop Sample_starting_reachable
                           (or_introl Hne))) Hne).
Defined.

End ReentryClaim.
